(** * Absolute temperature and precipitation potentials of single-lifetime
    pollutants: [metrics/slp.py] and [utils/constants.py].

    Numbers.  The program computes on IEEE doubles; here a double is
    idealised as a real number, so every statement below is a statement of
    real arithmetic.  A value is a Python float or a one-dimensional numpy
    array ([num]); arithmetic between the two broadcasts as numpy does.

    Failures.  A Python call either returns or raises; [result] carries the
    exception.  Dividing by zero is one outcome, [ZeroDivisionError]: this is
    what Python raises for floats; for an array numpy warns and stores
    inf/nan, values the reals do not have, and the model stops there too. *)

From Stdlib Require Import Reals Lra Lia List String Bool.
Import ListNotations.
Open Scope R_scope.

(** ** Exceptions and results *)

Inductive exn : Type :=
| AssertionError (msg : string)
| KeyError (key : string)
| TypeError
| IndexError
| ZeroDivisionError
| ValueError.

Inductive result (A : Type) : Type :=
| Ok (a : A)
| Raise (e : exn).

Arguments Ok {A} a.
Arguments Raise {A} e.

Definition bind {A B : Type} (m : result A) (f : A -> result B) : result B :=
  match m with
  | Ok a => f a
  | Raise e => Raise e
  end.

Notation "x <- m ;; f" := (bind m (fun x => f))
  (at level 61, m at next level, right associativity).
Notation "m ;;; f" := (bind m (fun _ => f))
  (at level 61, right associativity).

(** [assert cond, msg] *)
Definition py_assert (cond : bool) (msg : string) : result unit :=
  if cond then Ok tt else Raise (AssertionError msg).

(** ** Floats and arrays *)

Inductive num : Type :=
| Scalar (x : R)
| Array (xs : list R).

Definition Reqb (x y : R) : bool := if Req_dec_T x y then true else false.

Fixpoint zip_with (f : R -> R -> R) (xs ys : list R) : option (list R) :=
  match xs, ys with
  | [], [] => Some []
  | x :: xs', y :: ys' =>
      match zip_with f xs' ys' with
      | Some zs => Some (f x y :: zs)
      | None => None
      end
  | _, _ => None
  end.

(** Element-wise application of a binary operator.  Every array of this
    program has the shape of the three-element lifetime array; two arrays of
    unequal length do not broadcast (numpy raises ValueError). *)
Definition broadcast (f : R -> R -> R) (a b : num) : result num :=
  match a, b with
  | Scalar x, Scalar y => Ok (Scalar (f x y))
  | Scalar x, Array ys => Ok (Array (map (f x) ys))
  | Array xs, Scalar y => Ok (Array (map (fun x => f x y) xs))
  | Array xs, Array ys =>
      match zip_with f xs ys with
      | Some zs => Ok (Array zs)
      | None => Raise ValueError
      end
  end.

Definition has_zero (b : num) : bool :=
  match b with
  | Scalar y => Reqb y 0
  | Array ys => existsb (fun y => Reqb y 0) ys
  end.

(** [a / b].  A zero divisor is one outcome here.  Python raises
    ZeroDivisionError when both operands are floats; for an array or a numpy
    scalar numpy warns, stores inf or nan and goes on, which the reals
    cannot express.  The lifetimes of the table are never zero and never a
    decay timescale, so no array divisor of this program holds a zero. *)
Definition truediv (a b : num) : result num :=
  if has_zero b then Raise ZeroDivisionError else broadcast Rdiv a b.

Definition num_map (f : R -> R) (a : num) : num :=
  match a with
  | Scalar x => Scalar (f x)
  | Array xs => Array (map f xs)
  end.

(** ** Python expressions

    An expression is a computation of a value.  A binary operator evaluates
    its left operand, then its right operand, then applies. *)

Definition pyexpr : Type := result num.

Definition pyfloat (x : R) : pyexpr := Ok (Scalar x).
Definition pynum (v : num) : pyexpr := Ok v.
Coercion pyfloat : R >-> pyexpr.
Coercion pynum : num >-> pyexpr.

Definition lift2 (op : num -> num -> result num) (a b : pyexpr) : pyexpr :=
  x <- a ;; y <- b ;; op x y.

Definition py_add : pyexpr -> pyexpr -> pyexpr := lift2 (broadcast Rplus).
Definition py_sub : pyexpr -> pyexpr -> pyexpr := lift2 (broadcast Rminus).
Definition py_mul : pyexpr -> pyexpr -> pyexpr := lift2 (broadcast Rmult).
Definition py_div : pyexpr -> pyexpr -> pyexpr := lift2 truediv.
Definition py_neg (a : pyexpr) : pyexpr := x <- a ;; Ok (num_map Ropp x).
Definition np_exp (a : pyexpr) : pyexpr := x <- a ;; Ok (num_map exp x).

(** [l[j]] on a list of floats *)
Definition getitem (l : list R) (j : nat) : pyexpr :=
  match nth_error l j with
  | Some x => Ok (Scalar x)
  | None => Raise IndexError
  end.

Declare Scope py_scope.
Delimit Scope py_scope with py.
Bind Scope py_scope with pyexpr.
Notation "a + b" := (py_add a b) : py_scope.
Notation "a - b" := (py_sub a b) : py_scope.
Notation "a * b" := (py_mul a b) : py_scope.
Notation "a / b" := (py_div a b) : py_scope.
Notation "- a" := (py_neg a) : py_scope.
Notation "l .[ j ]" := (getitem l j)
  (at level 1, left associativity, format "l .[ j ]") : py_scope.

(** [sum(term(j) for j in range(n))]: the accumulator starts at 0 and the
    terms are produced and added in order. *)
Definition py_sum_range (n : nat) (term : nat -> pyexpr) : pyexpr :=
  fold_left (fun acc j => (acc + term j)%py) (seq 0 n) (pyfloat 0).

(** ** utils/constants.py *)

Module constants.

Definition SLP : list string := ["SO2"; "BC"; "CH4"]%string.

Definition C1 : R := 0.631.
Definition C2 : R := 0.429.

Definition D : list R := [8.4; 409.5].
Definition D1 : R := 8.4.
Definition D2 : R := 409.5.

Definition CF : R := 0.034.

(** A value of the specification table: a number, or a list of numbers
    (the three lifetimes and weights of CO2). *)
Inductive pyobj : Type :=
| PyFloat (x : R)
| PyList (xs : list R).

Definition SPECS : list (string * list (string * pyobj)) :=
  [ ("SO2", [ ("tau", PyFloat (4.35 / 365));
              ("tau_std", PyFloat (sqrt ((0.08 / 365) ^ 2 + (0.7 / 365) ^ 2)));
              ("fp", PyFloat (- 0.4));
              ("k", PyFloat 2.678);
              ("k_std", PyFloat 0.317) ]);
    ("BC",  [ ("tau", PyFloat (6.8 / 365));
              ("tau_std", PyFloat (1.8 / 365));
              ("fp", PyFloat 1);
              ("k", PyFloat 2.675);
              ("k_std", PyFloat 0.819) ]);
    ("CO2", [ ("tau", PyList [172.9; 18.51; 1.186]);
              ("a0", PyFloat 0.217);
              ("ai", PyList [0.259; 0.338; 0.186]);
              ("fp", PyFloat 1);
              ("k", PyFloat 2.470);
              ("k_std", PyFloat 0.160) ]);
    ("CH4", [ ("f", PyFloat 1.24);
              ("tau", PyFloat (9.7 * 1.24));
              ("tau_std", PyFloat 1.5);
              ("fp", PyFloat 1);
              ("k", PyFloat 2.766);
              ("k_std", PyFloat 0.383) ]) ]%string.

End constants.

(** [d[key]] on a dict *)
Fixpoint dict_get {V : Type} (d : list (string * V)) (key : string) : result V :=
  match d with
  | [] => Raise (KeyError key)
  | (k, v) :: d' => if String.eqb key k then Ok v else dict_get d' key
  end.

(** [constants.SPECS[pollutant][field]] read as a number *)
Definition spec_field (pollutant field : string) : result R :=
  entry <- dict_get constants.SPECS pollutant ;;
  v <- dict_get entry field ;;
  match v with
  | constants.PyFloat x => Ok x
  | constants.PyList _ => Raise TypeError
  end.

(** [x in l] on a list of strings *)
Definition py_in (x : string) (l : list string) : bool :=
  existsb (String.eqb x) l.

(** ** metrics/slp.py *)

Module slp.

Definition D : list R := constants.D.
Definition Cf : R := constants.CF.

(** Lines 75-85 of [compute_atp]: the two sums, once the lifetime, the
    coefficients and the radiative efficiency are resolved. *)
Definition potentials (rad_eff tau : num) (c_scaled : list R) (th : R)
  : result (num * num) :=
  iatp <- py_sum_range 2 (fun j =>
            (rad_eff * tau * c_scaled.[j] / (tau - D.[j])) *
            (tau * (1 - np_exp (- th / tau)) - D.[j] * (1 - np_exp (- th / D.[j]))))%py ;;
  atp <- py_sum_range 2 (fun j =>
            ((rad_eff * tau * c_scaled.[j]) / (tau - D.[j])) *
            (np_exp (- th / tau) - np_exp (- th / D.[j])))%py ;;
  Ok (iatp, atp).

Section Engine.

(** The two collaborators of [simulations], not part of this module:
    [variables.get_scaled_climate_sensitivity] and
    [scaling.get_mm_scaling]; each returns a sequence of numbers. *)
Variable get_scaled_climate_sensitivity : string -> list R.
Variable get_mm_scaling : string -> list R.

(** Lines 54-62: the lifetime, or the lifetime range. *)
Definition lifetime (pollutant : string) (lifetime_range : bool) : result num :=
  if lifetime_range then
    t0 <- spec_field pollutant "tau" ;;
    s0 <- spec_field pollutant "tau_std" ;;
    t1 <- spec_field pollutant "tau" ;;
    t2 <- spec_field pollutant "tau" ;;
    s2 <- spec_field pollutant "tau_std" ;;
    Ok (Array [t0 - s0; t1; t2 + s2])
  else
    t <- spec_field pollutant "tau" ;; Ok (Scalar t).

(** Lines 64-68: the climate sensitivity, scaled or not. *)
Definition climate_sensitivity (pollutant : string) (c_scaling : bool) : list R :=
  if c_scaling then get_scaled_climate_sensitivity pollutant
  else [constants.C1; constants.C2].

(** Lines 70-73: keep or remove the scaling of the radiative forcing. *)
Definition forcing (pollutant : string) (rad_eff : R) (erf_scaling : bool) : pyexpr :=
  if String.eqb pollutant "SO2" then
    if negb erf_scaling then
      (rad_eff / (get_mm_scaling pollutant).[1%nat])%py
    else pyfloat rad_eff
  else pyfloat rad_eff.

Definition compute_atp (pollutant : string) (rad_eff th : R)
    (c_scaling erf_scaling lifetime_range : bool) : result (num * num) :=
  py_assert (py_in pollutant constants.SLP)
            (pollutant ++ " is not an accepted pollutant") ;;;
  tau <- lifetime pollutant lifetime_range ;;
  let c_scaled := climate_sensitivity pollutant c_scaling in
  rad_eff <- forcing pollutant rad_eff erf_scaling ;;
  potentials rad_eff tau c_scaled th.

Definition compute_app (pollutant : string)
    (rad_eff rad_eff_a th rr_precip_avg precip_avg : R)
  : result (num * num * num * num * num * num) :=
  py_assert (py_in pollutant constants.SLP)
            (pollutant ++ " is not an accepted pollutant") ;;;
  tau <- spec_field pollutant "tau" ;;
  fp <- spec_field pollutant "fp" ;;
  k <- spec_field pollutant "k" ;;
  r <- compute_atp pollutant rad_eff th true true false ;;
  let '(iagtp, agtp) := r in
  iarpp <- (Cf * (k * iagtp - fp * rad_eff_a * tau * (1 - np_exp (- th / tau)))
            * (rr_precip_avg / precip_avg))%py ;;
  slow_iarpp <- (Cf * k * iagtp * (rr_precip_avg / precip_avg))%py ;;
  fast_iarpp <- (Cf * - fp * rad_eff_a * tau * (1 - np_exp (- th / tau))
                 * (rr_precip_avg / precip_avg))%py ;;
  arpp <- (Cf * (k * agtp - fp * rad_eff_a * np_exp (- th / tau))
           * (rr_precip_avg / precip_avg))%py ;;
  slow_arpp <- (Cf * k * agtp * (rr_precip_avg / precip_avg))%py ;;
  fast_arpp <- (Cf * - fp * rad_eff_a * np_exp (- th / tau)
                * (rr_precip_avg / precip_avg))%py ;;
  Ok (iarpp, slow_iarpp, fast_iarpp, arpp, slow_arpp, fast_arpp).

End Engine.

End slp.
Import slp.

(** ** Real-valued closed forms *)

(** One term of each sum, in the shape of the source expression. *)
Definition iatp_term (r t c d th : R) : R :=
  (r * t * c / (t - d)) * (t * (1 - exp (- th / t)) - d * (1 - exp (- th / d))).

Definition atp_term (r t c d th : R) : R :=
  (r * t * c / (t - d)) * (exp (- th / t) - exp (- th / d)).

(** The second factor of a term of the integrated potential. *)
Definition bracket (t d th : R) : R :=
  t * (1 - exp (- th / t)) - d * (1 - exp (- th / d)).

(** The formulas in the words of the specification: sums over the two
    climate-sensitivity terms j = 0, 1 with decay timescales 8.4 and 409.5. *)
Definition iATP_spec (rad_eff tau c1 c2 th : R) : R :=
  (rad_eff * tau * c1 / (tau - 8.4))
  * (tau * (1 - exp (- th / tau)) - 8.4 * (1 - exp (- th / 8.4)))
  + (rad_eff * tau * c2 / (tau - 409.5))
    * (tau * (1 - exp (- th / tau)) - 409.5 * (1 - exp (- th / 409.5))).

Definition ATP_spec (rad_eff tau c1 c2 th : R) : R :=
  (rad_eff * tau * c1 / (tau - 8.4)) * (exp (- th / tau) - exp (- th / 8.4))
  + (rad_eff * tau * c2 / (tau - 409.5)) * (exp (- th / tau) - exp (- th / 409.5)).

(** The lifetimes a call evaluates at. *)
Definition lifetimes (tau tau_std : R) (lifetime_range : bool) : num :=
  if lifetime_range then Array [tau - tau_std; tau; tau + tau_std] else Scalar tau.

(** A potential as a function of the lifetime, taken at [lifetimes]. *)
Definition at_lifetimes (f : R -> R) (tau tau_std : R) (lifetime_range : bool) : num :=
  num_map f (lifetimes tau tau_std lifetime_range).

(** Element-wise order on values of one shape. *)
Definition num_le (a b : num) : Prop :=
  match a, b with
  | Scalar x, Scalar y => x <= y
  | Array xs, Array ys => Forall2 Rle xs ys
  | _, _ => False
  end.

(** A property of every element of a value. *)
Definition num_forall (P : R -> Prop) (a : num) : Prop :=
  match a with
  | Scalar x => P x
  | Array xs => Forall P xs
  end.

Definition tau_std_SO2 : R := sqrt ((0.08 / 365) ^ 2 + (0.7 / 365) ^ 2).

(** Collaborators for the examples: multi-model scaling factors equal to
    one, hence the unscaled climate sensitivity. *)
Definition unit_mm_scaling (pollutant : string) : list R := [1; 1].
Definition unit_scaled_climate_sensitivity (pollutant : string) : list R :=
  [constants.C1; constants.C2].

(** ** Evaluation of the operators *)

Lemma Reqb_neq (x y : R) : x <> y -> Reqb x y = false.
Proof. intros H. unfold Reqb. destruct (Req_dec_T x y); [contradiction | reflexivity]. Qed.

Lemma Reqb_refl (x : R) : Reqb x x = true.
Proof. unfold Reqb. destruct (Req_dec_T x x); [reflexivity | contradiction]. Qed.

Lemma truediv_SS (x y : R) :
  y <> 0 -> truediv (Scalar x) (Scalar y) = Ok (Scalar (x / y)).
Proof. intros H. unfold truediv; simpl. rewrite (Reqb_neq _ _ H). reflexivity. Qed.

Lemma truediv_SS_zero (x : R) : truediv (Scalar x) (Scalar 0) = Raise ZeroDivisionError.
Proof. unfold truediv; simpl. rewrite Reqb_refl. reflexivity. Qed.

Lemma truediv_SA3 (x y0 y1 y2 : R) :
  y0 <> 0 -> y1 <> 0 -> y2 <> 0 ->
  truediv (Scalar x) (Array [y0; y1; y2]) = Ok (Array [x / y0; x / y1; x / y2]).
Proof.
  intros H0 H1 H2. unfold truediv; simpl.
  rewrite (Reqb_neq _ _ H0), (Reqb_neq _ _ H1), (Reqb_neq _ _ H2). reflexivity.
Qed.

Lemma truediv_AA3 (x0 x1 x2 y0 y1 y2 : R) :
  y0 <> 0 -> y1 <> 0 -> y2 <> 0 ->
  truediv (Array [x0; x1; x2]) (Array [y0; y1; y2])
  = Ok (Array [x0 / y0; x1 / y1; x2 / y2]).
Proof.
  intros H0 H1 H2. unfold truediv; simpl.
  rewrite (Reqb_neq _ _ H0), (Reqb_neq _ _ H1), (Reqb_neq _ _ H2). reflexivity.
Qed.

(** Unfold the operators on known values; real arithmetic and the
    divisions stay as they are. *)
Ltac py_step :=
  cbn [py_sum_range fold_left seq py_add py_sub py_mul py_div py_neg np_exp
       lift2 bind broadcast num_map map zip_with getitem nth_error
       pyfloat pynum D constants.D].

Ltac py_div_step :=
  first [ rewrite truediv_SS by (assumption || lra)
        | rewrite truediv_SA3 by (assumption || lra)
        | rewrite truediv_AA3 by (assumption || lra) ].

Ltac py_eval := py_step; repeat (py_div_step; py_step).

Lemma potentials_scalar (r t c1 c2 th : R) (rest : list R) :
  t <> 0 -> t <> 8.4 -> t <> 409.5 ->
  potentials (Scalar r) (Scalar t) (c1 :: c2 :: rest) th
  = Ok (Scalar (0 + iatp_term r t c1 8.4 th + iatp_term r t c2 409.5 th),
        Scalar (0 + atp_term r t c1 8.4 th + atp_term r t c2 409.5 th)).
Proof.
  intros Ht H0 H1. unfold potentials. py_eval. reflexivity.
Qed.

Lemma potentials_array3 (r t0 t1 t2 c1 c2 th : R) (rest : list R) :
  t0 <> 0 -> t0 <> 8.4 -> t0 <> 409.5 ->
  t1 <> 0 -> t1 <> 8.4 -> t1 <> 409.5 ->
  t2 <> 0 -> t2 <> 8.4 -> t2 <> 409.5 ->
  potentials (Scalar r) (Array [t0; t1; t2]) (c1 :: c2 :: rest) th
  = Ok (Array (map (fun t => 0 + iatp_term r t c1 8.4 th + iatp_term r t c2 409.5 th)
                   [t0; t1; t2]),
        Array (map (fun t => 0 + atp_term r t c1 8.4 th + atp_term r t c2 409.5 th)
                   [t0; t1; t2])).
Proof.
  intros. unfold potentials. py_eval. reflexivity.
Qed.

(** With fewer than two coefficients the lookup [c_scaled[j]] fails. *)
Lemma potentials_short_scalar (r t th : R) (c : list R) :
  t <> 0 -> t <> 8.4 -> t <> 409.5 -> (List.length c < 2)%nat ->
  potentials (Scalar r) (Scalar t) c th = Raise IndexError.
Proof.
  intros Ht H0 H1 Hc. unfold potentials.
  destruct c as [| c1 [| c2 rest]].
  - py_step. reflexivity.
  - py_eval. reflexivity.
  - simpl in Hc. lia.
Qed.

Lemma potentials_short_array3 (r t0 t1 t2 th : R) (c : list R) :
  t0 <> 0 -> t0 <> 8.4 -> t0 <> 409.5 ->
  t1 <> 0 -> t1 <> 8.4 -> t1 <> 409.5 ->
  t2 <> 0 -> t2 <> 8.4 -> t2 <> 409.5 -> (List.length c < 2)%nat ->
  potentials (Scalar r) (Array [t0; t1; t2]) c th = Raise IndexError.
Proof.
  intros ? ? ? ? ? ? ? ? ? Hc. unfold potentials.
  destruct c as [| c1 [| c2 rest]].
  - py_step. reflexivity.
  - py_eval. reflexivity.
  - simpl in Hc. lia.
Qed.

Lemma iATP_spec_terms (r t c1 c2 th : R) :
  0 + iatp_term r t c1 8.4 th + iatp_term r t c2 409.5 th = iATP_spec r t c1 c2 th.
Proof. unfold iATP_spec, iatp_term. ring. Qed.

Lemma ATP_spec_terms (r t c1 c2 th : R) :
  0 + atp_term r t c1 8.4 th + atp_term r t c2 409.5 th = ATP_spec r t c1 c2 th.
Proof. unfold ATP_spec, atp_term. ring. Qed.

Lemma iATP_spec_zero (r t c1 c2 : R) : iATP_spec r t c1 c2 0 = 0.
Proof.
  unfold iATP_spec.
  replace (- 0 / t) with 0 by (unfold Rdiv; ring).
  replace (- 0 / 8.4) with 0 by (unfold Rdiv; ring).
  replace (- 0 / 409.5) with 0 by (unfold Rdiv; ring).
  rewrite exp_0. unfold Rdiv. ring.
Qed.

Lemma ATP_spec_zero (r t c1 c2 : R) : ATP_spec r t c1 c2 0 = 0.
Proof.
  unfold ATP_spec.
  replace (- 0 / t) with 0 by (unfold Rdiv; ring).
  replace (- 0 / 8.4) with 0 by (unfold Rdiv; ring).
  replace (- 0 / 409.5) with 0 by (unfold Rdiv; ring).
  rewrite exp_0. unfold Rdiv. ring.
Qed.

(** ** Growth of the integrated potential with the horizon *)

Lemma decay_derivable (a x : R) :
  a <> 0 ->
  derivable_pt_lim (fun th => a * (1 - exp (- th / a))) x (exp (- x / a)).
Proof.
  intros Ha.
  assert (Hin : derivable_pt_lim (fun th => - th / a) x (- / a)).
  { apply (derivable_pt_lim_ext (mult_real_fct (- / a) id)).
    - intros z. unfold mult_real_fct, id, Rdiv. ring.
    - replace (- / a) with (- / a * 1) at 2 by ring.
      apply derivable_pt_lim_scal, derivable_pt_lim_id. }
  assert (Hexp : derivable_pt_lim (fun th => exp (- th / a)) x
                                  (exp (- x / a) * (- / a))).
  { apply (derivable_pt_lim_comp (fun th => - th / a) exp);
      [exact Hin | apply derivable_pt_lim_exp]. }
  apply (derivable_pt_lim_ext
           (mult_real_fct a ((fun _ => 1) - (fun th => exp (- th / a)))%F)).
  - intros z. reflexivity.
  - replace (exp (- x / a)) with (a * (0 - exp (- x / a) * (- / a)))
      by (field; exact Ha).
    apply derivable_pt_lim_scal, derivable_pt_lim_minus.
    + apply derivable_pt_lim_const.
    + exact Hexp.
Qed.

Lemma bracket_derivable (t d x : R) :
  t <> 0 -> d <> 0 ->
  derivable_pt_lim (bracket t d) x (exp (- x / t) - exp (- x / d)).
Proof.
  intros Ht Hd. unfold bracket.
  apply (derivable_pt_lim_minus (fun th => t * (1 - exp (- th / t)))
                                (fun th => d * (1 - exp (- th / d))));
    apply decay_derivable; assumption.
Qed.

(** The slower mode has decayed less. *)
Lemma exp_decay_order (a b x : R) :
  0 < a -> a < b -> 0 <= x -> exp (- x / a) <= exp (- x / b).
Proof.
  intros Ha Hab Hx.
  destruct (Req_dec x 0) as [-> | Hx0].
  - replace (- 0 / a) with (- 0 / b) by (unfold Rdiv; ring). lra.
  - left. apply exp_increasing. unfold Rdiv.
    assert (/ b < / a) by (apply Rinv_lt_contravar; nra).
    nra.
Qed.

Lemma bracket_increment (t d th1 th2 : R) :
  0 < t -> 0 < d -> t <> d -> 0 <= th1 <= th2 ->
  0 <= (bracket t d th2 - bracket t d th1) / (t - d).
Proof.
  intros Ht Hd Htd [H1 H12].
  destruct (Req_dec th1 th2) as [-> | Hne].
  - replace (bracket t d th2 - bracket t d th2) with 0 by ring.
    unfold Rdiv. rewrite Rmult_0_l. lra.
  - assert (Hlt : th1 < th2) by lra.
    destruct (MVT_cor2 (bracket t d) (fun x => exp (- x / t) - exp (- x / d))
                th1 th2 Hlt) as (x & Hx & Hx1 & Hx2).
    { intros c _. apply bracket_derivable; lra. }
    rewrite Hx. unfold Rdiv.
    destruct (Rlt_dec t d) as [Hlt' | Hge].
    + pose proof (exp_decay_order t d x Ht Hlt' ltac:(lra)) as Ho.
      assert (Hinv : / (t - d) < 0) by (apply Rinv_lt_0_compat; lra).
      replace ((exp (- x * / t) - exp (- x * / d)) * (th2 - th1) * / (t - d))
        with (((exp (- x * / d) - exp (- x * / t)) * (th2 - th1)) * - / (t - d))
        by ring.
      unfold Rdiv in Ho.
      apply Rmult_le_pos; [apply Rmult_le_pos |]; lra.
    + assert (Hdt : d < t) by lra.
      pose proof (exp_decay_order d t x Hd Hdt ltac:(lra)) as Ho.
      assert (Hinv : 0 < / (t - d)) by (apply Rinv_0_lt_compat; lra).
      unfold Rdiv in Ho.
      apply Rmult_le_pos; [apply Rmult_le_pos |]; lra.
Qed.

Lemma iatp_term_mono (r t c d th1 th2 : R) :
  0 <= r -> 0 <= c -> 0 < t -> 0 < d -> t <> d -> 0 <= th1 <= th2 ->
  iatp_term r t c d th1 <= iatp_term r t c d th2.
Proof.
  intros Hr Hc Ht Hd Htd Hth.
  pose proof (bracket_increment t d th1 th2 Ht Hd Htd Hth) as Hb.
  assert (E : iatp_term r t c d th2 - iatp_term r t c d th1
              = (r * t * c) * ((bracket t d th2 - bracket t d th1) / (t - d))).
  { unfold iatp_term, bracket. field. lra. }
  assert (0 <= r * t * c) by (apply Rmult_le_pos; [apply Rmult_le_pos |]; lra).
  assert (0 <= (r * t * c) * ((bracket t d th2 - bracket t d th1) / (t - d)))
    by (apply Rmult_le_pos; assumption).
  lra.
Qed.

Lemma iATP_spec_mono (r t c1 c2 th1 th2 : R) :
  0 <= r -> 0 <= c1 -> 0 <= c2 -> 0 < t -> t <> 8.4 -> t <> 409.5 ->
  0 <= th1 <= th2 ->
  iATP_spec r t c1 c2 th1 <= iATP_spec r t c1 c2 th2.
Proof.
  intros Hr H1 H2 Ht Ha Hb Hth.
  pose proof (iatp_term_mono r t c1 8.4 th1 th2 Hr H1 Ht ltac:(lra) Ha Hth).
  pose proof (iatp_term_mono r t c2 409.5 th1 th2 Hr H2 Ht ltac:(lra) Hb Hth).
  rewrite <- !iATP_spec_terms. lra.
Qed.

(** ** The specification table on the accepted pollutants *)

Lemma py_in_In (x : string) (l : list string) : py_in x l = true <-> In x l.
Proof.
  unfold py_in. rewrite existsb_exists. split.
  - intros [y [Hy He]]. apply String.eqb_eq in He. subst. exact Hy.
  - intros H. exists x. split; [exact H | apply String.eqb_refl].
Qed.

Lemma py_in_not_In (x : string) (l : list string) : ~ In x l -> py_in x l = false.
Proof.
  intros H. destruct (py_in x l) eqn:E; [| reflexivity].
  apply py_in_In in E. contradiction.
Qed.

Lemma SLP_cases (p : string) :
  In p constants.SLP -> p = "SO2"%string \/ p = "BC"%string \/ p = "CH4"%string.
Proof.
  unfold constants.SLP. simpl. intros [H | [H | [H | []]]]; subst; auto.
Qed.

Lemma tau_std_SO2_bounds : 0 <= tau_std_SO2 < 1 / 365.
Proof.
  unfold tau_std_SO2. split.
  - apply sqrt_pos.
  - rewrite <- (sqrt_pow2 (1 / 365)) by lra.
    apply sqrt_lt_1_alt. split; [nra | lra].
Qed.

(** Every accepted pollutant has the four fields the two functions read;
    its three lifetimes are positive and lie on one side of each decay
    timescale. *)
Lemma SLP_spec (p : string) :
  In p constants.SLP ->
  exists tau s fp k,
    spec_field p "tau" = Ok tau /\ spec_field p "tau_std" = Ok s /\
    spec_field p "fp" = Ok fp /\ spec_field p "k" = Ok k /\
    0 <= s /\ 0 < tau - s /\
    (tau + s < 8.4 \/ (8.4 < tau - s /\ tau + s < 409.5)).
Proof.
  intros H. apply SLP_cases in H. destruct H as [-> | [-> | ->]].
  - exists (4.35 / 365), tau_std_SO2, (- 0.4), 2.678.
    pose proof tau_std_SO2_bounds.
    repeat split; try reflexivity; try lra.
  - exists (6.8 / 365), (1.8 / 365), 1, 2.675.
    repeat split; try reflexivity; try lra.
  - exists (9.7 * 1.24), 1.5, 1, 2.766.
    repeat split; try reflexivity; try lra.
Qed.

(** The table as the two functions see it. *)
Example spec_field_BC_tau : spec_field "BC" "tau" = Ok (6.8 / 365).
Proof. reflexivity. Qed.

Example spec_field_CH4_tau : spec_field "CH4" "tau" = Ok (9.7 * 1.24).
Proof. reflexivity. Qed.

Example spec_field_CO2_tau : spec_field "CO2" "tau" = Raise TypeError.
Proof. reflexivity. Qed.

Example spec_field_CO2_tau_std : spec_field "CO2" "tau_std" = Raise (KeyError "tau_std").
Proof. reflexivity. Qed.

Example spec_field_unknown : spec_field "XYZ" "tau" = Raise (KeyError "XYZ").
Proof. reflexivity. Qed.

(** Broadcasting of a float against the lifetime array. *)
Example broadcast_float_array (x t0 t1 t2 : R) :
  (pyfloat x * pynum (Array [t0; t1; t2]))%py = Ok (Array [x * t0; x * t1; x * t2]).
Proof. reflexivity. Qed.

Example broadcast_shapes (t0 t1 t2 u0 u1 : R) :
  (pynum (Array [t0; t1; t2]) - pynum (Array [u0; u1]))%py = Raise ValueError.
Proof. reflexivity. Qed.

(** ** The two entry points on an accepted pollutant *)

Section EngineFacts.

Variable get_scaled_climate_sensitivity : string -> list R.
Variable get_mm_scaling : string -> list R.

Local Abbreviation compute_atp :=
  (compute_atp get_scaled_climate_sensitivity get_mm_scaling).
Local Abbreviation compute_app :=
  (compute_app get_scaled_climate_sensitivity get_mm_scaling).
Local Abbreviation climate_sensitivity :=
  (climate_sensitivity get_scaled_climate_sensitivity).
Local Abbreviation forcing := (forcing get_mm_scaling).

Lemma lifetime_accepted (p : string) (tau s : R) (lr : bool) :
  spec_field p "tau" = Ok tau -> spec_field p "tau_std" = Ok s ->
  lifetime p lr = Ok (lifetimes tau s lr).
Proof.
  intros Ht Hs. unfold lifetime, lifetimes. rewrite Ht, Hs. destruct lr; reflexivity.
Qed.

Lemma compute_atp_accepted (p : string) (tau s rad_eff th : R) (cs es lr : bool) :
  In p constants.SLP ->
  spec_field p "tau" = Ok tau -> spec_field p "tau_std" = Ok s ->
  compute_atp p rad_eff th cs es lr
  = (r <- forcing p rad_eff es ;;
     potentials r (lifetimes tau s lr) (climate_sensitivity p cs) th).
Proof.
  intros Hp Ht Hs. unfold slp.compute_atp.
  apply py_in_In in Hp. rewrite Hp. cbn [py_assert bind].
  rewrite (lifetime_accepted p tau s lr Ht Hs). reflexivity.
Qed.

Lemma forcing_kept (p : string) (rad_eff : R) (es : bool) :
  es = true \/ p <> "SO2"%string -> forcing p rad_eff es = Ok (Scalar rad_eff).
Proof.
  intros H. unfold slp.forcing.
  destruct (String.eqb p "SO2") eqn:E; [| reflexivity].
  destruct H as [-> | H]; [reflexivity |].
  apply String.eqb_eq in E. contradiction.
Qed.

Lemma forcing_removed (rad_eff m : R) :
  nth_error (get_mm_scaling "SO2") 1 = Some m -> m <> 0 ->
  forcing "SO2" rad_eff false = Ok (Scalar (rad_eff / m)).
Proof.
  intros Hm Hz. unfold slp.forcing. cbn [String.eqb Ascii.eqb Bool.eqb negb].
  unfold getitem. rewrite Hm. py_eval. reflexivity.
Qed.

(** The forcing step returns a float, or fails in the lookup or in the
    division by the multi-model factor. *)
Lemma forcing_cases (p : string) (rad_eff : R) (es : bool) :
  (exists r, forcing p rad_eff es = Ok (Scalar r))
  \/ forcing p rad_eff es = Raise IndexError
  \/ (forcing p rad_eff es = Raise ZeroDivisionError
      /\ p = "SO2"%string /\ es = false
      /\ nth_error (get_mm_scaling "SO2") 1 = Some 0).
Proof.
  unfold slp.forcing.
  destruct (String.eqb p "SO2") eqn:E; [| left; eexists; reflexivity].
  apply String.eqb_eq in E. subst p.
  destruct es; cbn [negb]; [left; eexists; reflexivity |].
  unfold getitem. destruct (nth_error (get_mm_scaling "SO2") 1) as [m |] eqn:Hm.
  - destruct (Req_dec m 0) as [-> | Hz].
    + right; right. py_step. rewrite truediv_SS_zero. auto.
    + left. exists (rad_eff / m). py_eval. reflexivity.
  - right; left. reflexivity.
Qed.

(** Value of [compute_atp] on an accepted pollutant, in both modes. *)
Lemma compute_atp_value (p : string) (rad_eff th c1 c2 r : R) (cs es lr : bool) :
  In p constants.SLP ->
  climate_sensitivity p cs = [c1; c2] ->
  forcing p rad_eff es = Ok (Scalar r) ->
  exists tau s,
    spec_field p "tau" = Ok tau /\ spec_field p "tau_std" = Ok s /\
    0 <= s /\ 0 < tau - s /\
    (tau + s < 8.4 \/ (8.4 < tau - s /\ tau + s < 409.5)) /\
    compute_atp p rad_eff th cs es lr
    = Ok (at_lifetimes (fun t => iATP_spec r t c1 c2 th) tau s lr,
          at_lifetimes (fun t => ATP_spec r t c1 c2 th) tau s lr).
Proof.
  intros Hp Hc Hr.
  destruct (SLP_spec p Hp) as (tau & s & fp & k & Ht & Hs & _ & _ & Hs0 & Hlo & Hside).
  exists tau, s. repeat (split; [assumption |]).
  rewrite (compute_atp_accepted p tau s rad_eff th cs es lr Hp Ht Hs).
  rewrite Hr, Hc. cbn [bind]. unfold at_lifetimes, lifetimes.
  destruct lr.
  - rewrite potentials_array3 by lra.
    cbn [num_map map]. rewrite !iATP_spec_terms, !ATP_spec_terms. reflexivity.
  - rewrite potentials_scalar by lra.
    cbn [num_map]. rewrite iATP_spec_terms, ATP_spec_terms. reflexivity.
Qed.

(** On an accepted pollutant the sums never divide by zero: whatever
    stops [compute_atp] with that outcome is the forcing step. *)
Lemma compute_atp_zero_division (p : string) (rad_eff th : R) (cs es lr : bool) :
  In p constants.SLP ->
  compute_atp p rad_eff th cs es lr = Raise ZeroDivisionError ->
  forcing p rad_eff es = Raise ZeroDivisionError.
Proof.
  intros Hp.
  destruct (SLP_spec p Hp) as (tau & s & fp & k & Ht & Hs & _ & _ & Hs0 & Hlo & Hside).
  rewrite (compute_atp_accepted p tau s rad_eff th cs es lr Hp Ht Hs).
  destruct (forcing_cases p rad_eff es) as [[r Hr] | [Hr | [Hr _]]];
    rewrite Hr; cbn [bind]; [| discriminate | reflexivity].
  unfold lifetimes.
  destruct (climate_sensitivity p cs) as [| c1 [| c2 rest]] eqn:Hc; destruct lr;
    first [ rewrite potentials_short_array3 by (simpl; lra || lia)
          | rewrite potentials_short_scalar by (simpl; lra || lia)
          | rewrite potentials_array3 by lra
          | rewrite potentials_scalar by lra ];
    discriminate.
Qed.

(** Value of [compute_app] on an accepted pollutant and a nonzero global
    precipitation average. *)
Lemma compute_app_value (p : string) (rad_eff rad_eff_a th rr pa c1 c2 : R) :
  In p constants.SLP ->
  get_scaled_climate_sensitivity p = [c1; c2] ->
  pa <> 0 ->
  exists tau fp k,
    spec_field p "tau" = Ok tau /\ spec_field p "fp" = Ok fp /\
    spec_field p "k" = Ok k /\
    compute_atp p rad_eff th true true false
    = Ok (Scalar (iATP_spec rad_eff tau c1 c2 th),
          Scalar (ATP_spec rad_eff tau c1 c2 th)) /\
    compute_app p rad_eff rad_eff_a th rr pa
    = Ok (Scalar (Cf * (k * iATP_spec rad_eff tau c1 c2 th
                        - fp * rad_eff_a * tau * (1 - exp (- th / tau))) * (rr / pa)),
          Scalar (Cf * k * iATP_spec rad_eff tau c1 c2 th * (rr / pa)),
          Scalar (Cf * - fp * rad_eff_a * tau * (1 - exp (- th / tau)) * (rr / pa)),
          Scalar (Cf * (k * ATP_spec rad_eff tau c1 c2 th
                        - fp * rad_eff_a * exp (- th / tau)) * (rr / pa)),
          Scalar (Cf * k * ATP_spec rad_eff tau c1 c2 th * (rr / pa)),
          Scalar (Cf * - fp * rad_eff_a * exp (- th / tau) * (rr / pa))).
Proof.
  intros Hp Hc Hpa.
  destruct (SLP_spec p Hp) as (tau & s & fp & k & Ht & Hs & Hfp & Hk & Hs0 & Hlo & _).
  destruct (compute_atp_value p rad_eff th c1 c2 rad_eff true true false Hp Hc
              (forcing_kept p rad_eff true (or_introl eq_refl)))
    as (tau' & s' & Ht' & _ & _ & _ & _ & Hatp).
  rewrite Ht in Ht'. injection Ht' as <-.
  unfold at_lifetimes, lifetimes in Hatp. cbn [num_map] in Hatp.
  exists tau, fp, k. repeat (split; [assumption |]).
  unfold slp.compute_app. apply py_in_In in Hp. rewrite Hp. cbn [py_assert bind].
  rewrite Ht, Hfp, Hk, Hatp. cbn [bind].
  assert (Htau : tau <> 0) by lra.
  py_eval. reflexivity.
Qed.

(** A zero global precipitation average stops [compute_app] in the
    division [rr_precip_avg / precip_avg]. *)
Lemma compute_app_zero_precip (p : string) (rad_eff rad_eff_a th rr c1 c2 : R) :
  In p constants.SLP ->
  get_scaled_climate_sensitivity p = [c1; c2] ->
  compute_app p rad_eff rad_eff_a th rr 0 = Raise ZeroDivisionError.
Proof.
  intros Hp Hc.
  destruct (SLP_spec p Hp) as (tau & s & fp & k & Ht & Hs & Hfp & Hk & Hs0 & Hlo & _).
  destruct (compute_atp_value p rad_eff th c1 c2 rad_eff true true false Hp Hc
              (forcing_kept p rad_eff true (or_introl eq_refl)))
    as (tau' & s' & Ht' & _ & _ & _ & _ & Hatp).
  rewrite Ht in Ht'. injection Ht' as <-.
  unfold at_lifetimes, lifetimes in Hatp. cbn [num_map] in Hatp.
  unfold slp.compute_app. apply py_in_In in Hp. rewrite Hp. cbn [py_assert bind].
  rewrite Ht, Hfp, Hk, Hatp. cbn [bind].
  assert (Htau : tau <> 0) by lra.
  py_eval. rewrite truediv_SS_zero. reflexivity.
Qed.

(** Without a zero average, [compute_app] does not divide by zero. *)
Lemma compute_app_zero_division (p : string) (rad_eff rad_eff_a th rr pa : R) :
  In p constants.SLP ->
  compute_app p rad_eff rad_eff_a th rr pa = Raise ZeroDivisionError ->
  pa = 0.
Proof.
  intros Hp Hz.
  destruct (Req_dec pa 0) as [H0 | Hpa]; [exact H0 | exfalso].
  destruct (SLP_spec p Hp) as (tau & s & fp & k & Ht & Hs & Hfp & Hk & Hs0 & Hlo & Hside).
  revert Hz. unfold slp.compute_app.
  pose proof Hp as Hin. apply py_in_In in Hin. rewrite Hin. cbn [py_assert bind].
  rewrite Ht, Hfp, Hk. cbn [bind].
  rewrite (compute_atp_accepted p tau s rad_eff th true true false Hp Ht Hs).
  rewrite (forcing_kept p rad_eff true (or_introl eq_refl)). cbn [bind].
  unfold lifetimes.
  assert (Htau : tau <> 0) by lra.
  destruct (climate_sensitivity p true) as [| c1 [| c2 rest]].
  - rewrite potentials_short_scalar by (simpl; lra || lia). discriminate.
  - rewrite potentials_short_scalar by (simpl; lra || lia). discriminate.
  - rewrite potentials_scalar by lra. cbn [bind].
    py_eval. discriminate.
Qed.

(** ** The claims *)

(** C1.  For an accepted pollutant, with coefficients [c1; c2] and [r] the
    radiative efficiency left by the forcing step ([rad_eff] itself unless
    the pollutant is SO2 and erf_scaling is off), [compute_atp] returns the
    pair of two-term sums of the specification at the nominal lifetime, for
    every horizon; with the lifetime range it returns them element-wise at
    the three lifetimes.  The nominal lifetime differs from 8.4 and 409.5. *)
Theorem compute_atp_closed_form (p : string) (rad_eff th c1 c2 r : R) (cs es : bool) :
  In p constants.SLP ->
  climate_sensitivity p cs = [c1; c2] ->
  forcing p rad_eff es = Ok (Scalar r) ->
  exists tau tau_std,
    spec_field p "tau" = Ok tau /\ spec_field p "tau_std" = Ok tau_std /\
    tau <> 8.4 /\ tau <> 409.5 /\
    (es = true \/ p <> "SO2"%string -> r = rad_eff) /\
    compute_atp p rad_eff th cs es false
    = Ok (Scalar (iATP_spec r tau c1 c2 th), Scalar (ATP_spec r tau c1 c2 th)) /\
    compute_atp p rad_eff th cs es true
    = Ok (Array [iATP_spec r (tau - tau_std) c1 c2 th;
                 iATP_spec r tau c1 c2 th;
                 iATP_spec r (tau + tau_std) c1 c2 th],
          Array [ATP_spec r (tau - tau_std) c1 c2 th;
                 ATP_spec r tau c1 c2 th;
                 ATP_spec r (tau + tau_std) c1 c2 th]).
Proof.
  intros Hp Hc Hr.
  destruct (compute_atp_value p rad_eff th c1 c2 r cs es false Hp Hc Hr)
    as (tau & s & Ht & Hs & Hs0 & Hlo & Hside & Hscalar).
  destruct (compute_atp_value p rad_eff th c1 c2 r cs es true Hp Hc Hr)
    as (tau' & s' & Ht' & Hs' & _ & _ & _ & Harray).
  rewrite Ht in Ht'. injection Ht' as <-. rewrite Hs in Hs'. injection Hs' as <-.
  exists tau, s. repeat split; try assumption; try lra.
  intros Hkept. rewrite (forcing_kept p rad_eff es Hkept) in Hr.
  injection Hr as Hr. symmetry. exact Hr.
Qed.

(** C2.  On an accepted pollutant, a two-element scaled climate
    sensitivity and a nonzero global precipitation average, [compute_app]
    takes (iATP, ATP) from [compute_atp] called with c_scaling = True,
    erf_scaling = True, lifetime_range = False, and its slow and fast
    components are the four products of the specification, with
    scale = rr_precip_avg / precip_avg and Cf = 0.034. *)
Theorem compute_app_components (p : string) (rad_eff rad_eff_a th rr pa c1 c2 : R) :
  In p constants.SLP ->
  get_scaled_climate_sensitivity p = [c1; c2] ->
  pa <> 0 ->
  exists tau fp k iATP ATP iarpp arpp,
    spec_field p "tau" = Ok tau /\ spec_field p "fp" = Ok fp /\
    spec_field p "k" = Ok k /\ Cf = 0.034 /\
    compute_atp p rad_eff th true true false = Ok (Scalar iATP, Scalar ATP) /\
    compute_app p rad_eff rad_eff_a th rr pa
    = Ok (Scalar iarpp,
          Scalar (Cf * k * iATP * (rr / pa)),
          Scalar (Cf * (- fp) * rad_eff_a * tau * (1 - exp (- th / tau)) * (rr / pa)),
          Scalar arpp,
          Scalar (Cf * k * ATP * (rr / pa)),
          Scalar (Cf * (- fp) * rad_eff_a * exp (- th / tau) * (rr / pa))).
Proof.
  intros Hp Hc Hpa.
  destruct (compute_app_value p rad_eff rad_eff_a th rr pa c1 c2 Hp Hc Hpa)
    as (tau & fp & k & Ht & Hfp & Hk & Hatp & Happ).
  exists tau, fp, k. do 4 eexists.
  repeat (split; [first [eassumption | reflexivity] |]).
  exact Happ.
Qed.



(** C5.  A pollutant outside SLP stops both functions at their first
    statement with the assertion failure that names it, whatever the other
    arguments and the collaborators are. *)
Theorem invalid_pollutant_rejected (p : string)
    (rad_eff rad_eff_a th rr pa : R) (cs es lr : bool) :
  ~ In p constants.SLP ->
  compute_atp p rad_eff th cs es lr
  = Raise (AssertionError (p ++ " is not an accepted pollutant")) /\
  compute_app p rad_eff rad_eff_a th rr pa
  = Raise (AssertionError (p ++ " is not an accepted pollutant")).
Proof.
  intros Hp. apply py_in_not_In in Hp.
  unfold slp.compute_atp, slp.compute_app.
  rewrite Hp. split; reflexivity.
Qed.

(** C7.  With the lifetime range, [compute_atp] returns two three-element
    arrays, the values of the sums at tau - tau_std, tau, tau + tau_std in
    this order; the middle elements are the two floats returned without the
    lifetime range. *)
Theorem lifetime_range_nominal (p : string) (rad_eff th c1 c2 r : R) (cs es : bool) :
  In p constants.SLP ->
  climate_sensitivity p cs = [c1; c2] ->
  forcing p rad_eff es = Ok (Scalar r) ->
  exists tau tau_std i_lo i_nom i_hi a_lo a_nom a_hi,
    spec_field p "tau" = Ok tau /\ spec_field p "tau_std" = Ok tau_std /\
    tau - tau_std <= tau <= tau + tau_std /\
    compute_atp p rad_eff th cs es true
    = Ok (Array [i_lo; i_nom; i_hi], Array [a_lo; a_nom; a_hi]) /\
    compute_atp p rad_eff th cs es false = Ok (Scalar i_nom, Scalar a_nom) /\
    potentials (Scalar r) (Scalar (tau - tau_std)) [c1; c2] th
    = Ok (Scalar i_lo, Scalar a_lo) /\
    potentials (Scalar r) (Scalar tau) [c1; c2] th
    = Ok (Scalar i_nom, Scalar a_nom) /\
    potentials (Scalar r) (Scalar (tau + tau_std)) [c1; c2] th
    = Ok (Scalar i_hi, Scalar a_hi).
Proof.
  intros Hp Hc Hr.
  destruct (compute_atp_value p rad_eff th c1 c2 r cs es false Hp Hc Hr)
    as (tau & s & Ht & Hs & Hs0 & Hlo & Hside & Hscalar).
  destruct (compute_atp_value p rad_eff th c1 c2 r cs es true Hp Hc Hr)
    as (tau' & s' & Ht' & Hs' & _ & _ & _ & Harray).
  rewrite Ht in Ht'. injection Ht' as <-. rewrite Hs in Hs'. injection Hs' as <-.
  exists tau, s. do 6 eexists.
  split; [exact Ht |]. split; [exact Hs |]. split; [lra |].
  split; [exact Harray |]. split; [exact Hscalar |].
  rewrite !potentials_scalar by lra.
  rewrite !iATP_spec_terms, !ATP_spec_terms. repeat split.
Qed.

(** C8.  For an accepted pollutant and rad_eff > 0, the integrated
    potential does not decrease between two horizons 0 <= th1 <= th2, in
    each mode and for each setting of the flags, when the coefficients in
    use are not negative.  The unscaled coefficients are positive; those of
    the scaled lookup and, for SO2 with erf_scaling off, the sign of the
    efficiency left by the forcing step are conditions on the collaborators. *)
Theorem iatp_nondecreasing (p : string) (rad_eff th1 th2 c1 c2 r : R)
    (cs es lr : bool) :
  In p constants.SLP ->
  0 < rad_eff ->
  0 <= th1 <= th2 ->
  climate_sensitivity p cs = [c1; c2] ->
  (cs = true -> 0 <= c1 /\ 0 <= c2) ->
  forcing p rad_eff es = Ok (Scalar r) ->
  (p = "SO2"%string -> es = false -> 0 <= r) ->
  exists i1 a1 i2 a2,
    compute_atp p rad_eff th1 cs es lr = Ok (i1, a1) /\
    compute_atp p rad_eff th2 cs es lr = Ok (i2, a2) /\
    num_le i1 i2.
Proof.
  intros Hp Hrad Hth Hc Hsign Hr Hrsign.
  destruct (compute_atp_value p rad_eff th1 c1 c2 r cs es lr Hp Hc Hr)
    as (tau & s & Ht & Hs & Hs0 & Hlo & Hside & H1).
  destruct (compute_atp_value p rad_eff th2 c1 c2 r cs es lr Hp Hc Hr)
    as (tau' & s' & Ht' & Hs' & _ & _ & _ & H2).
  rewrite Ht in Ht'. injection Ht' as <-. rewrite Hs in Hs'. injection Hs' as <-.
  do 4 eexists. split; [exact H1 |]. split; [exact H2 |].
  assert (Hc12 : 0 <= c1 /\ 0 <= c2).
  { destruct cs; [apply Hsign; reflexivity |].
    unfold slp.climate_sensitivity in Hc. injection Hc as <- <-.
    unfold constants.C1, constants.C2. lra. }
  assert (Hr0 : 0 <= r).
  { destruct (String.eqb p "SO2") eqn:E.
    - apply String.eqb_eq in E. destruct es.
      + rewrite (forcing_kept p rad_eff true (or_introl eq_refl)) in Hr.
        injection Hr as <-. lra.
      + apply Hrsign; [exact E | reflexivity].
    - apply String.eqb_neq in E.
      rewrite (forcing_kept p rad_eff es (or_intror E)) in Hr.
      injection Hr as <-. lra. }
  destruct Hc12 as [Hc1 Hc2].
  unfold at_lifetimes, lifetimes. destruct lr; cbn [num_map map num_le].
  - repeat (constructor; [apply iATP_spec_mono; assumption || lra |]).
    constructor.
  - apply iATP_spec_mono; assumption || lra.
Qed.

(** C9.  At horizon 0 both potentials are 0, with or without the
    lifetime range. *)
Theorem potentials_zero_at_zero_horizon (p : string) (rad_eff c1 c2 r : R)
    (cs es : bool) :
  In p constants.SLP ->
  climate_sensitivity p cs = [c1; c2] ->
  forcing p rad_eff es = Ok (Scalar r) ->
  compute_atp p rad_eff 0 cs es false = Ok (Scalar 0, Scalar 0) /\
  compute_atp p rad_eff 0 cs es true = Ok (Array [0; 0; 0], Array [0; 0; 0]).
Proof.
  intros Hp Hc Hr.
  destruct (compute_atp_value p rad_eff 0 c1 c2 r cs es false Hp Hc Hr)
    as (tau & s & _ & _ & _ & _ & _ & Hscalar).
  destruct (compute_atp_value p rad_eff 0 c1 c2 r cs es true Hp Hc Hr)
    as (tau' & s' & _ & _ & _ & _ & _ & Harray).
  unfold at_lifetimes, lifetimes in Hscalar, Harray.
  cbn [num_map map] in Hscalar, Harray.
  rewrite iATP_spec_zero, ATP_spec_zero in Hscalar.
  repeat rewrite iATP_spec_zero in Harray.
  repeat rewrite ATP_spec_zero in Harray.
  split; assumption.
Qed.

(** C10, as amended.  For an accepted pollutant the three lifetimes in use
    are positive and differ from 8.4 and 409.5, and the decay timescales
    are not zero, so tau - D[j], tau and D[j] are nonzero divisors.  What
    remains is in other hands: [compute_atp] divides by zero only for SO2
    with erf_scaling off and a zero multi-model factor, and [compute_app]
    only for a zero global precipitation average. *)
Theorem lifetime_divisors_nonzero (p : string) (rad_eff rad_eff_a th rr pa : R)
    (cs es lr : bool) :
  In p constants.SLP ->
  exists tau tau_std,
    spec_field p "tau" = Ok tau /\ spec_field p "tau_std" = Ok tau_std /\
    (forall t, In t [tau - tau_std; tau; tau + tau_std] ->
               0 < t /\ t - 8.4 <> 0 /\ t - 409.5 <> 0) /\
    (forall d, In d D -> d <> 0) /\
    (compute_atp p rad_eff th cs es lr = Raise ZeroDivisionError ->
     p = "SO2"%string /\ es = false /\
     nth_error (get_mm_scaling "SO2") 1 = Some 0) /\
    (compute_app p rad_eff rad_eff_a th rr pa = Raise ZeroDivisionError ->
     pa = 0).
Proof.
  intros Hp.
  destruct (SLP_spec p Hp) as (tau & s & fp & k & Ht & Hs & _ & _ & Hs0 & Hlo & Hside).
  exists tau, s. split; [exact Ht |]. split; [exact Hs |].
  split; [| split; [| split]].
  - intros t [<- | [<- | [<- | []]]]; lra.
  - unfold D, constants.D. intros d [<- | [<- | []]]; lra.
  - intros Hz. apply compute_atp_zero_division in Hz; [| exact Hp].
    destruct (forcing_cases p rad_eff es) as [[r Hr] | [Hr | [_ H]]].
    + rewrite Hr in Hz. discriminate.
    + rewrite Hr in Hz. discriminate.
    + exact H.
  - apply compute_app_zero_division. exact Hp.
Qed.

End EngineFacts.

(** ** Instances

    The statements above at concrete arguments, with scaling factors equal
    to one as collaborators. *)

Lemma BC_accepted : In "BC"%string constants.SLP.
Proof. simpl. right. left. reflexivity. Defined.

Lemma XYZ_not_accepted : ~ In "XYZ"%string constants.SLP.
Proof. simpl. intros [H | [H | [H | []]]]; discriminate H. Defined.

Lemma CO2_not_accepted : ~ In "CO2"%string constants.SLP.
Proof. simpl. intros [H | [H | [H | []]]]; discriminate H. Defined.

Lemma compute_atp_closed_form_witness :
  In "BC"%string constants.SLP /\
  exists tau tau_std,
    spec_field "BC" "tau" = Ok tau /\ spec_field "BC" "tau_std" = Ok tau_std /\
    tau <> 8.4 /\ tau <> 409.5 /\
    (true = true \/ "BC"%string <> "SO2"%string -> 1 = 1) /\
    compute_atp unit_scaled_climate_sensitivity unit_mm_scaling "BC" 1 20 true true false
    = Ok (Scalar (iATP_spec 1 tau constants.C1 constants.C2 20),
          Scalar (ATP_spec 1 tau constants.C1 constants.C2 20)) /\
    compute_atp unit_scaled_climate_sensitivity unit_mm_scaling "BC" 1 20 true true true
    = Ok (Array [iATP_spec 1 (tau - tau_std) constants.C1 constants.C2 20;
                 iATP_spec 1 tau constants.C1 constants.C2 20;
                 iATP_spec 1 (tau + tau_std) constants.C1 constants.C2 20],
          Array [ATP_spec 1 (tau - tau_std) constants.C1 constants.C2 20;
                 ATP_spec 1 tau constants.C1 constants.C2 20;
                 ATP_spec 1 (tau + tau_std) constants.C1 constants.C2 20]).
Proof.
  split; [exact BC_accepted |].
  apply (compute_atp_closed_form unit_scaled_climate_sensitivity unit_mm_scaling
           "BC" 1 20 constants.C1 constants.C2 1 true true);
    [exact BC_accepted | reflexivity | reflexivity].
Defined.

Lemma compute_app_components_witness :
  1 <> 0 /\
  exists tau fp k iATP ATP iarpp arpp,
    spec_field "BC" "tau" = Ok tau /\ spec_field "BC" "fp" = Ok fp /\
    spec_field "BC" "k" = Ok k /\ Cf = 0.034 /\
    compute_atp unit_scaled_climate_sensitivity unit_mm_scaling "BC" 1 20 true true false
    = Ok (Scalar iATP, Scalar ATP) /\
    compute_app unit_scaled_climate_sensitivity unit_mm_scaling "BC" 1 2 20 3 1
    = Ok (Scalar iarpp,
          Scalar (Cf * k * iATP * (3 / 1)),
          Scalar (Cf * (- fp) * 2 * tau * (1 - exp (- 20 / tau)) * (3 / 1)),
          Scalar arpp,
          Scalar (Cf * k * ATP * (3 / 1)),
          Scalar (Cf * (- fp) * 2 * exp (- 20 / tau) * (3 / 1))).
Proof.
  assert (H : 1 <> 0) by lra.
  split; [exact H |].
  apply (compute_app_components unit_scaled_climate_sensitivity unit_mm_scaling
           "BC" 1 2 20 3 1 constants.C1 constants.C2);
    [exact BC_accepted | reflexivity | exact H].
Defined.



Lemma invalid_pollutant_rejected_witness :
  ~ In "XYZ"%string constants.SLP /\ ~ In "CO2"%string constants.SLP /\
  (compute_atp unit_scaled_climate_sensitivity unit_mm_scaling "XYZ" 1 20 true true false
   = Raise (AssertionError "XYZ is not an accepted pollutant") /\
   compute_app unit_scaled_climate_sensitivity unit_mm_scaling "XYZ" 1 1 20 1 1
   = Raise (AssertionError "XYZ is not an accepted pollutant")) /\
  (compute_atp unit_scaled_climate_sensitivity unit_mm_scaling "CO2" 1 20 true true false
   = Raise (AssertionError "CO2 is not an accepted pollutant") /\
   compute_app unit_scaled_climate_sensitivity unit_mm_scaling "CO2" 1 1 20 1 1
   = Raise (AssertionError "CO2 is not an accepted pollutant")).
Proof.
  split; [exact XYZ_not_accepted |]. split; [exact CO2_not_accepted |]. split.
  - exact (invalid_pollutant_rejected unit_scaled_climate_sensitivity unit_mm_scaling
             "XYZ" 1 1 20 1 1 true true false XYZ_not_accepted).
  - exact (invalid_pollutant_rejected unit_scaled_climate_sensitivity unit_mm_scaling
             "CO2" 1 1 20 1 1 true true false CO2_not_accepted).
Defined.

Lemma lifetime_range_nominal_witness :
  In "BC"%string constants.SLP /\
  exists tau tau_std i_lo i_nom i_hi a_lo a_nom a_hi,
    spec_field "BC" "tau" = Ok tau /\ spec_field "BC" "tau_std" = Ok tau_std /\
    tau - tau_std <= tau <= tau + tau_std /\
    compute_atp unit_scaled_climate_sensitivity unit_mm_scaling "BC" 1 20 true true true
    = Ok (Array [i_lo; i_nom; i_hi], Array [a_lo; a_nom; a_hi]) /\
    compute_atp unit_scaled_climate_sensitivity unit_mm_scaling "BC" 1 20 true true false
    = Ok (Scalar i_nom, Scalar a_nom) /\
    potentials (Scalar 1) (Scalar (tau - tau_std)) [constants.C1; constants.C2] 20
    = Ok (Scalar i_lo, Scalar a_lo) /\
    potentials (Scalar 1) (Scalar tau) [constants.C1; constants.C2] 20
    = Ok (Scalar i_nom, Scalar a_nom) /\
    potentials (Scalar 1) (Scalar (tau + tau_std)) [constants.C1; constants.C2] 20
    = Ok (Scalar i_hi, Scalar a_hi).
Proof.
  split; [exact BC_accepted |].
  apply (lifetime_range_nominal unit_scaled_climate_sensitivity unit_mm_scaling
           "BC" 1 20 constants.C1 constants.C2 1 true true);
    [exact BC_accepted | reflexivity | reflexivity].
Defined.

Lemma iatp_nondecreasing_witness :
  0 < 1 /\ 0 <= 0 <= 20 /\
  exists i1 a1 i2 a2,
    compute_atp unit_scaled_climate_sensitivity unit_mm_scaling "BC" 1 0 true true false
    = Ok (i1, a1) /\
    compute_atp unit_scaled_climate_sensitivity unit_mm_scaling "BC" 1 20 true true false
    = Ok (i2, a2) /\
    num_le i1 i2.
Proof.
  assert (H1 : 0 < 1) by lra.
  assert (H2 : 0 <= 0 <= 20) by lra.
  assert (H3 : 0 <= constants.C1 /\ 0 <= constants.C2)
    by (unfold constants.C1, constants.C2; lra).
  split; [exact H1 |]. split; [exact H2 |].
  apply (iatp_nondecreasing unit_scaled_climate_sensitivity unit_mm_scaling
           "BC" 1 0 20 constants.C1 constants.C2 1 true true false);
    [exact BC_accepted | exact H1 | exact H2 | reflexivity | intros _; exact H3
    | reflexivity | intros H; discriminate H].
Defined.

Lemma potentials_zero_at_zero_horizon_witness :
  In "BC"%string constants.SLP /\
  compute_atp unit_scaled_climate_sensitivity unit_mm_scaling "BC" 1 0 true true false
  = Ok (Scalar 0, Scalar 0) /\
  compute_atp unit_scaled_climate_sensitivity unit_mm_scaling "BC" 1 0 true true true
  = Ok (Array [0; 0; 0], Array [0; 0; 0]).
Proof.
  split; [exact BC_accepted |].
  apply (potentials_zero_at_zero_horizon unit_scaled_climate_sensitivity unit_mm_scaling
           "BC" 1 constants.C1 constants.C2 1 true true);
    [exact BC_accepted | reflexivity | reflexivity].
Defined.

Lemma lifetime_divisors_nonzero_witness :
  In "BC"%string constants.SLP /\
  exists tau tau_std,
    spec_field "BC" "tau" = Ok tau /\ spec_field "BC" "tau_std" = Ok tau_std /\
    (forall t, In t [tau - tau_std; tau; tau + tau_std] ->
               0 < t /\ t - 8.4 <> 0 /\ t - 409.5 <> 0) /\
    (forall d, In d D -> d <> 0) /\
    (compute_atp unit_scaled_climate_sensitivity unit_mm_scaling "BC" 1 20 true true true
     = Raise ZeroDivisionError ->
     "BC"%string = "SO2"%string /\ true = false /\
     nth_error (unit_mm_scaling "SO2") 1 = Some 0) /\
    (compute_app unit_scaled_climate_sensitivity unit_mm_scaling "BC" 1 1 20 1 0
     = Raise ZeroDivisionError -> 0 = 0).
Proof.
  split; [exact BC_accepted |].
  exact (lifetime_divisors_nonzero unit_scaled_climate_sensitivity unit_mm_scaling
           "BC" 1 1 20 1 0 true true true BC_accepted).
Defined.

(** C10, the claim as stated fails: through [compute_app] a zero global
    precipitation average is a zero divisor. *)
Lemma zero_precip_avg_divides_by_zero :
  compute_app unit_scaled_climate_sensitivity unit_mm_scaling "BC" 1 1 20 1 0
  = Raise ZeroDivisionError.
Proof.
  apply (compute_app_zero_precip unit_scaled_climate_sensitivity unit_mm_scaling
           "BC" 1 1 20 1 constants.C1 constants.C2);
    [exact BC_accepted | reflexivity].
Qed.

(** ** Outcomes of the two entry points *)

Section Outcomes.

Variable get_scaled_climate_sensitivity : string -> list R.
Variable get_mm_scaling : string -> list R.

Local Abbreviation compute_atp :=
  (compute_atp get_scaled_climate_sensitivity get_mm_scaling).
Local Abbreviation compute_app :=
  (compute_app get_scaled_climate_sensitivity get_mm_scaling).
Local Abbreviation climate_sensitivity :=
  (climate_sensitivity get_scaled_climate_sensitivity).
Local Abbreviation forcing := (forcing get_mm_scaling).

(** The sums at the lifetimes of an accepted pollutant: they read the
    first two coefficients, and fail in the lookup when there are fewer. *)
Lemma potentials_lifetimes (r tau s th : R) (lr : bool) (c : list R) :
  0 <= s -> 0 < tau - s ->
  (tau + s < 8.4 \/ (8.4 < tau - s /\ tau + s < 409.5)) ->
  potentials (Scalar r) (lifetimes tau s lr) c th
  = match c with
    | c1 :: c2 :: _ =>
        Ok (at_lifetimes (fun t => iATP_spec r t c1 c2 th) tau s lr,
            at_lifetimes (fun t => ATP_spec r t c1 c2 th) tau s lr)
    | _ => Raise IndexError
    end.
Proof.
  intros Hs0 Hlo Hside. unfold at_lifetimes, lifetimes.
  destruct c as [| c1 [| c2 rest]]; destruct lr;
    first [ rewrite potentials_short_array3 by (simpl; lra || lia); reflexivity
          | rewrite potentials_short_scalar by (simpl; lra || lia); reflexivity
          | idtac ].
  - rewrite potentials_array3 by lra.
    cbn [num_map map]. rewrite !iATP_spec_terms, !ATP_spec_terms. reflexivity.
  - rewrite potentials_scalar by lra.
    cbn [num_map]. rewrite iATP_spec_terms, ATP_spec_terms. reflexivity.
Qed.

(** The forcing step, case by case. *)
Lemma forcing_spec (p : string) (rad_eff : R) (es : bool) :
  forcing p rad_eff es
  = if String.eqb p "SO2" && negb es then
      match nth_error (get_mm_scaling "SO2") 1 with
      | None => Raise IndexError
      | Some m => if Reqb m 0 then Raise ZeroDivisionError
                  else Ok (Scalar (rad_eff / m))
      end
    else Ok (Scalar rad_eff).
Proof.
  unfold slp.forcing.
  destruct (String.eqb p "SO2") eqn:E; [| reflexivity].
  apply String.eqb_eq in E. subst p.
  destruct es; cbn [negb andb]; [reflexivity |].
  unfold getitem. destruct (nth_error (get_mm_scaling "SO2") 1) as [m |]; [| reflexivity].
  py_step. unfold truediv. cbn [has_zero].
  destruct (Reqb m 0); reflexivity.
Qed.

(** [compute_atp] on an accepted pollutant, in one equation. *)
Lemma compute_atp_spec (p : string) (rad_eff th : R) (cs es lr : bool) :
  In p constants.SLP ->
  exists tau s,
    spec_field p "tau" = Ok tau /\ spec_field p "tau_std" = Ok s /\
    0 <= s /\ 0 < tau - s /\
    (tau + s < 8.4 \/ (8.4 < tau - s /\ tau + s < 409.5)) /\
    compute_atp p rad_eff th cs es lr
    = (r <- forcing p rad_eff es ;;
       match r, climate_sensitivity p cs with
       | Scalar r, c1 :: c2 :: _ =>
           Ok (at_lifetimes (fun t => iATP_spec r t c1 c2 th) tau s lr,
               at_lifetimes (fun t => ATP_spec r t c1 c2 th) tau s lr)
       | _, _ => Raise IndexError
       end).
Proof.
  intros Hp.
  destruct (SLP_spec p Hp) as (tau & s & fp & k & Ht & Hs & _ & _ & Hs0 & Hlo & Hside).
  exists tau, s. repeat (split; [assumption |]).
  rewrite (compute_atp_accepted _ _ p tau s rad_eff th cs es lr Hp Ht Hs).
  rewrite forcing_spec.
  destruct (String.eqb p "SO2" && negb es).
  - destruct (nth_error (get_mm_scaling "SO2") 1) as [m |]; [| reflexivity].
    destruct (Reqb m 0); [reflexivity |].
    cbn [bind]. apply potentials_lifetimes; assumption.
  - cbn [bind]. apply potentials_lifetimes; assumption.
Qed.

(** X1.  [compute_atp] returns a value exactly when the pollutant is
    accepted, the coefficient sequence in use has at least two elements and,
    for SO2 with erf_scaling off, element 1 of the multi-model scaling
    exists and is not zero. *)
Theorem compute_atp_returns_iff (p : string) (rad_eff th : R) (cs es lr : bool) :
  (exists v, compute_atp p rad_eff th cs es lr = Ok v)
  <-> In p constants.SLP
      /\ (2 <= List.length (climate_sensitivity p cs))%nat
      /\ (p = "SO2"%string -> es = false ->
          exists m, nth_error (get_mm_scaling "SO2") 1 = Some m /\ m <> 0).
Proof.
  split.
  - intros [v Hv].
    destruct (py_in p constants.SLP) eqn:Hin.
    + apply py_in_In in Hin.
      destruct (compute_atp_spec p rad_eff th cs es lr Hin)
        as (tau & s & _ & _ & _ & _ & _ & E).
      rewrite E, forcing_spec in Hv. clear E.
      split; [exact Hin |].
      destruct (String.eqb p "SO2" && negb es) eqn:Hb.
      * apply andb_prop in Hb. destruct Hb as [Hb1 Hb2].
        destruct (nth_error (get_mm_scaling "SO2") 1) as [m |] eqn:Hm;
          [| discriminate Hv].
        destruct (Reqb m 0) eqn:Hz; [discriminate Hv |].
        cbn [bind] in Hv.
        split.
        -- destruct (climate_sensitivity p cs) as [| c1 [| c2 rest]];
             [discriminate Hv | discriminate Hv | simpl; lia].
        -- intros _ _. exists m. split; [reflexivity |].
           intros ->. rewrite Reqb_refl in Hz. discriminate Hz.
      * cbn [bind] in Hv. split.
        -- destruct (climate_sensitivity p cs) as [| c1 [| c2 rest]];
             [discriminate Hv | discriminate Hv | simpl; lia].
        -- intros -> ->. discriminate Hb.
    + unfold slp.compute_atp in Hv. rewrite Hin in Hv. discriminate Hv.
  - intros (Hin & Hlen & Hmm).
    destruct (compute_atp_spec p rad_eff th cs es lr Hin)
      as (tau & s & _ & _ & _ & _ & _ & E).
    rewrite E, forcing_spec. clear E.
    destruct (climate_sensitivity p cs) as [| c1 [| c2 rest]];
      [simpl in Hlen; lia | simpl in Hlen; lia |].
    destruct (String.eqb p "SO2" && negb es) eqn:Hb.
    + apply andb_prop in Hb. destruct Hb as [Hb1 Hb2].
      apply String.eqb_eq in Hb1. destruct es; [discriminate Hb2 |].
      destruct (Hmm Hb1 eq_refl) as (m & Hm & Hz).
      rewrite Hm, (Reqb_neq _ _ Hz). cbn [bind]. eexists; reflexivity.
    + cbn [bind]. eexists; reflexivity.
Qed.

(** X2.  The failures of [compute_atp], exactly and in the order the code
    meets them: the assertion on the pollutant; for SO2 with erf_scaling
    off a missing or zero multi-model factor; and, only once the forcing
    step has succeeded, a coefficient sequence shorter than two.  No other
    exception is raised: the table has every field read and the arrays keep
    one shape. *)
Theorem compute_atp_failures (p : string) (rad_eff th : R) (cs es lr : bool)
    (e : exn) :
  compute_atp p rad_eff th cs es lr = Raise e
  <-> (~ In p constants.SLP
       /\ e = AssertionError (p ++ " is not an accepted pollutant"))
      \/ (In p constants.SLP /\ p = "SO2"%string /\ es = false
          /\ nth_error (get_mm_scaling "SO2") 1 = None /\ e = IndexError)
      \/ (In p constants.SLP /\ p = "SO2"%string /\ es = false
          /\ nth_error (get_mm_scaling "SO2") 1 = Some 0
          /\ e = ZeroDivisionError)
      \/ (In p constants.SLP
          /\ (p = "SO2"%string -> es = false ->
              exists m, nth_error (get_mm_scaling "SO2") 1 = Some m /\ m <> 0)
          /\ (List.length (climate_sensitivity p cs) < 2)%nat
          /\ e = IndexError).
Proof.
  split.
  - intros He.
    destruct (py_in p constants.SLP) eqn:Hin.
    + apply py_in_In in Hin. right.
      destruct (compute_atp_spec p rad_eff th cs es lr Hin)
        as (tau & s & _ & _ & _ & _ & _ & E).
      rewrite E, forcing_spec in He. clear E.
      destruct (String.eqb p "SO2" && negb es) eqn:Hb.
      * apply andb_prop in Hb. destruct Hb as [Hb1 Hb2].
        apply String.eqb_eq in Hb1. destruct es; [discriminate Hb2 |].
        destruct (nth_error (get_mm_scaling "SO2") 1) as [m |] eqn:Hm.
        -- destruct (Reqb m 0) eqn:Hz.
           ++ right; left. cbn [bind] in He. injection He as <-.
              unfold Reqb in Hz. destruct (Req_dec_T m 0) as [-> | _];
                [| discriminate Hz].
              repeat split; assumption || reflexivity.
           ++ right; right. cbn [bind] in He.
              assert (Hm0 : m <> 0).
              { intros ->. rewrite Reqb_refl in Hz. discriminate Hz. }
              split; [exact Hin |]. split.
              { intros _ _. exists m. split; [reflexivity | exact Hm0]. }
              destruct (climate_sensitivity p cs) as [| c1 [| c2 rest]];
                [| | discriminate He];
                injection He as <-; split; try reflexivity; simpl; lia.
        -- left. cbn [bind] in He. injection He as <-.
           repeat split; assumption || reflexivity.
      * right; right. cbn [bind] in He.
        split; [exact Hin |]. split.
        { intros -> ->. discriminate Hb. }
        destruct (climate_sensitivity p cs) as [| c1 [| c2 rest]];
          [| | discriminate He];
          injection He as <-; split; try reflexivity; simpl; lia.
    + left. unfold slp.compute_atp in He. rewrite Hin in He.
      cbn [py_assert bind] in He. injection He as <-.
      split; [| reflexivity].
      intros H. apply py_in_In in H. rewrite H in Hin. discriminate Hin.
  - intros [(Hout & ->) | [(Hin & -> & -> & Hm & ->)
                          | [(Hin & -> & -> & Hm & ->) | (Hin & Hf & Hlen & ->)]]].
    + apply py_in_not_In in Hout. unfold slp.compute_atp. rewrite Hout.
      reflexivity.
    + destruct (compute_atp_spec "SO2" rad_eff th cs false lr Hin)
        as (tau & s & _ & _ & _ & _ & _ & E).
      rewrite E, forcing_spec, Hm. reflexivity.
    + destruct (compute_atp_spec "SO2" rad_eff th cs false lr Hin)
        as (tau & s & _ & _ & _ & _ & _ & E).
      rewrite E, forcing_spec, Hm, Reqb_refl. reflexivity.
    + destruct (compute_atp_spec p rad_eff th cs es lr Hin)
        as (tau & s & _ & _ & _ & _ & _ & E).
      rewrite E, forcing_spec. clear E.
      destruct (String.eqb p "SO2" && negb es) eqn:Hb.
      * apply andb_prop in Hb. destruct Hb as [Hb1 Hb2].
        apply String.eqb_eq in Hb1. destruct es; [discriminate Hb2 |].
        destruct (Hf Hb1 eq_refl) as (m & Hm & Hm0).
        rewrite Hm, (Reqb_neq _ _ Hm0). cbn [bind].
        destruct (climate_sensitivity p cs) as [| c1 [| c2 rest]];
          [reflexivity | reflexivity | simpl in Hlen; lia].
      * cbn [bind].
        destruct (climate_sensitivity p cs) as [| c1 [| c2 rest]];
          [reflexivity | reflexivity | simpl in Hlen; lia].
Qed.

(** [compute_app] on an accepted pollutant, in one equation. *)
Lemma compute_app_spec (p : string) (rad_eff rad_eff_a th rr pa : R) :
  In p constants.SLP ->
  exists tau fp k,
    spec_field p "tau" = Ok tau /\ spec_field p "fp" = Ok fp /\
    spec_field p "k" = Ok k /\ 0 < tau /\ tau <> 8.4 /\ tau <> 409.5 /\
    compute_app p rad_eff rad_eff_a th rr pa
    = match get_scaled_climate_sensitivity p with
      | c1 :: c2 :: _ =>
          if Reqb pa 0 then Raise ZeroDivisionError
          else
            Ok (Scalar (Cf * (k * iATP_spec rad_eff tau c1 c2 th
                              - fp * rad_eff_a * tau * (1 - exp (- th / tau)))
                        * (rr / pa)),
                Scalar (Cf * k * iATP_spec rad_eff tau c1 c2 th * (rr / pa)),
                Scalar (Cf * - fp * rad_eff_a * tau * (1 - exp (- th / tau))
                        * (rr / pa)),
                Scalar (Cf * (k * ATP_spec rad_eff tau c1 c2 th
                              - fp * rad_eff_a * exp (- th / tau)) * (rr / pa)),
                Scalar (Cf * k * ATP_spec rad_eff tau c1 c2 th * (rr / pa)),
                Scalar (Cf * - fp * rad_eff_a * exp (- th / tau) * (rr / pa)))
      | _ => Raise IndexError
      end.
Proof.
  intros Hp.
  destruct (SLP_spec p Hp) as (tau & s & fp & k & Ht & Hs & Hfp & Hk & Hs0 & Hlo & Hside).
  destruct (compute_atp_spec p rad_eff th true true false Hp)
    as (tau' & s' & Ht' & _ & _ & _ & _ & E).
  rewrite Ht in Ht'. injection Ht' as <-.
  exists tau, fp, k. repeat (split; [assumption || lra |]).
  unfold slp.compute_app. pose proof Hp as Hin. apply py_in_In in Hin.
  rewrite Hin. cbn [py_assert bind].
  rewrite Ht, Hfp, Hk, E, forcing_spec. cbn [bind].
  rewrite andb_false_r. cbn [bind]. unfold slp.climate_sensitivity.
  destruct (get_scaled_climate_sensitivity p) as [| c1 [| c2 rest]];
    [reflexivity | reflexivity |].
  cbn [bind]. unfold at_lifetimes, lifetimes. cbn [num_map].
  assert (Htau : tau <> 0) by lra.
  destruct (Req_dec pa 0) as [-> | Hpa].
  - rewrite Reqb_refl. py_eval. rewrite truediv_SS_zero. reflexivity.
  - rewrite (Reqb_neq _ _ Hpa). py_eval. reflexivity.
Qed.

(** X3.  [compute_app] returns its six values exactly when the pollutant
    is accepted, the scaled climate sensitivity has at least two elements
    and the global precipitation average is not zero. *)
Theorem compute_app_returns_iff (p : string) (rad_eff rad_eff_a th rr pa : R) :
  (exists v, compute_app p rad_eff rad_eff_a th rr pa = Ok v)
  <-> In p constants.SLP
      /\ (2 <= List.length (get_scaled_climate_sensitivity p))%nat
      /\ pa <> 0.
Proof.
  split.
  - intros [v Hv].
    destruct (py_in p constants.SLP) eqn:Hin.
    + apply py_in_In in Hin.
      destruct (compute_app_spec p rad_eff rad_eff_a th rr pa Hin)
        as (tau & fp & k & _ & _ & _ & _ & _ & _ & E).
      rewrite E in Hv. clear E. split; [exact Hin |].
      destruct (get_scaled_climate_sensitivity p) as [| c1 [| c2 rest]];
        [discriminate Hv | discriminate Hv |].
      split; [simpl; lia |].
      intros ->. rewrite Reqb_refl in Hv. discriminate Hv.
    + unfold slp.compute_app in Hv. rewrite Hin in Hv. discriminate Hv.
  - intros (Hin & Hlen & Hpa).
    destruct (compute_app_spec p rad_eff rad_eff_a th rr pa Hin)
      as (tau & fp & k & _ & _ & _ & _ & _ & _ & E).
    rewrite E. clear E.
    destruct (get_scaled_climate_sensitivity p) as [| c1 [| c2 rest]];
      [simpl in Hlen; lia | simpl in Hlen; lia |].
    rewrite (Reqb_neq _ _ Hpa). eexists; reflexivity.
Qed.

(** X4.  The failures of [compute_app], in the order the code meets them:
    the assertion on the pollutant, then a scaled climate sensitivity
    shorter than two (raised inside [compute_atp], before any division by
    the precipitation average), then a zero precipitation average. *)
Theorem compute_app_failures (p : string) (rad_eff rad_eff_a th rr pa : R)
    (e : exn) :
  compute_app p rad_eff rad_eff_a th rr pa = Raise e ->
  (~ In p constants.SLP
   /\ e = AssertionError (p ++ " is not an accepted pollutant"))
  \/ (In p constants.SLP
      /\ (List.length (get_scaled_climate_sensitivity p) < 2)%nat
      /\ e = IndexError)
  \/ (In p constants.SLP
      /\ (2 <= List.length (get_scaled_climate_sensitivity p))%nat
      /\ pa = 0 /\ e = ZeroDivisionError).
Proof.
  intros He.
  destruct (py_in p constants.SLP) eqn:Hin.
  - apply py_in_In in Hin. right.
    destruct (compute_app_spec p rad_eff rad_eff_a th rr pa Hin)
      as (tau & fp & k & _ & _ & _ & _ & _ & _ & E).
    rewrite E in He. clear E.
    destruct (get_scaled_climate_sensitivity p) as [| c1 [| c2 rest]].
    + left. injection He as <-. repeat split; try assumption. simpl; lia.
    + left. injection He as <-. repeat split; try assumption. simpl; lia.
    + right. unfold Reqb in He. destruct (Req_dec_T pa 0) as [-> | _];
        [| discriminate He].
      injection He as <-. repeat split; try assumption. simpl; lia.
  - left. unfold slp.compute_app in He. rewrite Hin in He.
    cbn [py_assert bind] in He. injection He as <-.
    split; [| reflexivity].
    intros H. apply py_in_In in H. rewrite H in Hin. discriminate Hin.
Qed.

End Outcomes.

(** X5.  Only the first two elements of the scaled climate sensitivity are
    read: two collaborators that agree on them give the same results. *)
Theorem first_two_coefficients_only (g g' gmm : string -> list R) (p : string)
    (rad_eff rad_eff_a th rr pa c1 c2 : R) (rest rest' : list R)
    (cs es lr : bool) :
  g p = c1 :: c2 :: rest ->
  g' p = c1 :: c2 :: rest' ->
  compute_atp g gmm p rad_eff th cs es lr
  = compute_atp g' gmm p rad_eff th cs es lr
  /\ compute_app g gmm p rad_eff rad_eff_a th rr pa
     = compute_app g' gmm p rad_eff rad_eff_a th rr pa.
Proof.
  intros Hg Hg'.
  destruct (py_in p constants.SLP) eqn:Hin.
  - apply py_in_In in Hin. split.
    + destruct (compute_atp_spec g gmm p rad_eff th cs es lr Hin)
        as (tau & s & Ht & Hs & _ & _ & _ & E).
      destruct (compute_atp_spec g' gmm p rad_eff th cs es lr Hin)
        as (tau' & s' & Ht' & Hs' & _ & _ & _ & E').
      rewrite Ht in Ht'. injection Ht' as <-.
      rewrite Hs in Hs'. injection Hs' as <-.
      rewrite E, E'. unfold climate_sensitivity.
      destruct cs; [rewrite Hg, Hg' |]; reflexivity.
    + destruct (compute_app_spec g gmm p rad_eff rad_eff_a th rr pa Hin)
        as (tau & fp & k & Ht & Hfp & Hk & _ & _ & _ & E).
      destruct (compute_app_spec g' gmm p rad_eff rad_eff_a th rr pa Hin)
        as (tau' & fp' & k' & Ht' & Hfp' & Hk' & _ & _ & _ & E').
      rewrite Ht in Ht'. injection Ht' as <-.
      rewrite Hfp in Hfp'. injection Hfp' as <-.
      rewrite Hk in Hk'. injection Hk' as <-.
      rewrite E, E', Hg, Hg'. reflexivity.
  - unfold compute_atp, compute_app. rewrite Hin. split; reflexivity.
Qed.

(** ** Shape of the potentials in the efficiency and the horizon *)

Lemma iATP_spec_linear (a r t c1 c2 th : R) :
  iATP_spec (a * r) t c1 c2 th = a * iATP_spec r t c1 c2 th.
Proof. unfold iATP_spec, Rdiv. ring. Qed.

Lemma ATP_spec_linear (a r t c1 c2 th : R) :
  ATP_spec (a * r) t c1 c2 th = a * ATP_spec r t c1 c2 th.
Proof. unfold ATP_spec, Rdiv. ring. Qed.

Lemma at_lifetimes_scale (a : R) (f g : R -> R) (tau s : R) (lr : bool) :
  (forall t, f t = a * g t) ->
  at_lifetimes f tau s lr = num_map (Rmult a) (at_lifetimes g tau s lr).
Proof.
  intros H. unfold at_lifetimes, lifetimes.
  destruct lr; cbn [num_map map]; rewrite ?H; reflexivity.
Qed.

Lemma atp_term_nonneg (r t c d th : R) :
  0 <= r -> 0 <= c -> 0 < t -> 0 < d -> t <> d -> 0 <= th ->
  0 <= atp_term r t c d th.
Proof.
  intros Hr Hc Ht Hd Htd Hth. unfold atp_term.
  assert (Hrtc : 0 <= r * t * c)
    by (apply Rmult_le_pos; [apply Rmult_le_pos |]; lra).
  destruct (Rlt_dec t d) as [Hlt | Hge].
  - pose proof (exp_decay_order t d th Ht Hlt Hth) as Ho.
    assert (Hinv : 0 < / (d - t)) by (apply Rinv_0_lt_compat; lra).
    replace (r * t * c / (t - d) * (exp (- th / t) - exp (- th / d)))
      with ((r * t * c) * / (d - t) * (exp (- th / d) - exp (- th / t)))
      by (field; lra).
    apply Rmult_le_pos; [apply Rmult_le_pos |]; lra.
  - assert (Hdt : d < t) by lra.
    pose proof (exp_decay_order d t th Hd Hdt Hth) as Ho.
    assert (Hinv : 0 < / (t - d)) by (apply Rinv_0_lt_compat; lra).
    unfold Rdiv. apply Rmult_le_pos; [apply Rmult_le_pos |]; lra.
Qed.

Lemma ATP_spec_nonneg (r t c1 c2 th : R) :
  0 <= r -> 0 <= c1 -> 0 <= c2 -> 0 < t -> t <> 8.4 -> t <> 409.5 -> 0 <= th ->
  0 <= ATP_spec r t c1 c2 th.
Proof.
  intros Hr H1 H2 Ht Ha Hb Hth.
  pose proof (atp_term_nonneg r t c1 8.4 th Hr H1 Ht ltac:(lra) Ha Hth).
  pose proof (atp_term_nonneg r t c2 409.5 th Hr H2 Ht ltac:(lra) Hb Hth).
  rewrite <- ATP_spec_terms. lra.
Qed.

Lemma iATP_spec_nonneg (r t c1 c2 th : R) :
  0 <= r -> 0 <= c1 -> 0 <= c2 -> 0 < t -> t <> 8.4 -> t <> 409.5 -> 0 <= th ->
  0 <= iATP_spec r t c1 c2 th.
Proof.
  intros Hr H1 H2 Ht Ha Hb Hth.
  rewrite <- (iATP_spec_zero r t c1 c2).
  apply iATP_spec_mono; assumption || lra.
Qed.

(** The second factor of a term never exceeds [t - d] in proportion. *)
Lemma bracket_ratio_le_1 (t d th : R) :
  0 < t -> 0 < d -> t <> d -> 0 <= th -> bracket t d th / (t - d) <= 1.
Proof.
  intros Ht Hd Htd Hth.
  pose proof (exp_pos (- th / t)) as P1.
  pose proof (exp_pos (- th / d)) as P2.
  assert (E : bracket t d th / (t - d)
              = 1 - (t * exp (- th / t) - d * exp (- th / d)) / (t - d))
    by (unfold bracket; field; lra).
  rewrite E.
  assert (0 <= (t * exp (- th / t) - d * exp (- th / d)) / (t - d)); [| lra].
  destruct (Rlt_dec t d) as [Hlt | Hge].
  - pose proof (exp_decay_order t d th Ht Hlt Hth) as Ho.
    assert (Hinv : 0 < / (d - t)) by (apply Rinv_0_lt_compat; lra).
    replace ((t * exp (- th / t) - d * exp (- th / d)) / (t - d))
      with ((d * exp (- th / d) - t * exp (- th / t)) * / (d - t))
      by (field; lra).
    apply Rmult_le_pos; [nra | lra].
  - assert (Hdt : d < t) by lra.
    pose proof (exp_decay_order d t th Hd Hdt Hth) as Ho.
    assert (Hinv : 0 < / (t - d)) by (apply Rinv_0_lt_compat; lra).
    unfold Rdiv. apply Rmult_le_pos; [nra | lra].
Qed.

Lemma iatp_term_le (r t c d th : R) :
  0 <= r -> 0 <= c -> 0 < t -> 0 < d -> t <> d -> 0 <= th ->
  iatp_term r t c d th <= r * t * c.
Proof.
  intros Hr Hc Ht Hd Htd Hth.
  pose proof (bracket_ratio_le_1 t d th Ht Hd Htd Hth) as Hb.
  assert (E : iatp_term r t c d th = (r * t * c) * (bracket t d th / (t - d)))
    by (unfold iatp_term, bracket; field; lra).
  assert (Hrtc : 0 <= r * t * c)
    by (apply Rmult_le_pos; [apply Rmult_le_pos |]; lra).
  rewrite E. nra.
Qed.

Lemma iATP_spec_le (r t c1 c2 th : R) :
  0 <= r -> 0 <= c1 -> 0 <= c2 -> 0 < t -> t <> 8.4 -> t <> 409.5 -> 0 <= th ->
  iATP_spec r t c1 c2 th <= r * t * (c1 + c2).
Proof.
  intros Hr H1 H2 Ht Ha Hb Hth.
  pose proof (iatp_term_le r t c1 8.4 th Hr H1 Ht ltac:(lra) Ha Hth).
  pose proof (iatp_term_le r t c2 409.5 th Hr H2 Ht ltac:(lra) Hb Hth).
  rewrite <- iATP_spec_terms. lra.
Qed.

(** The pulse potential is the rate of change of the integrated one. *)
Lemma iATP_spec_derivable (r t c1 c2 x : R) :
  t <> 0 ->
  derivable_pt_lim (fun th => iATP_spec r t c1 c2 th) x (ATP_spec r t c1 c2 x).
Proof.
  intros Ht.
  apply (derivable_pt_lim_ext
           (mult_real_fct (r * t * c1 / (t - 8.4)) (bracket t 8.4)
            + mult_real_fct (r * t * c2 / (t - 409.5)) (bracket t 409.5))%F).
  - intros z. reflexivity.
  - unfold ATP_spec.
    apply derivable_pt_lim_plus; apply derivable_pt_lim_scal;
      apply bracket_derivable; lra.
Qed.

Lemma at_lifetimes_forall (P : R -> Prop) (f : R -> R) (tau s : R) (lr : bool) :
  (forall t, In t [tau - s; tau; tau + s] -> P (f t)) ->
  num_forall P (at_lifetimes f tau s lr).
Proof.
  intros H. unfold at_lifetimes, lifetimes.
  destruct lr; cbn [num_map map num_forall].
  - constructor; [apply H; simpl; auto |].
    constructor; [apply H; simpl; auto |].
    constructor; [apply H; simpl; auto |].
    constructor.
  - apply H. simpl. auto.
Qed.

Lemma at_lifetimes_le (f g : R -> R) (tau s : R) (lr : bool) :
  (forall t, In t [tau - s; tau; tau + s] -> f t <= g t) ->
  num_le (at_lifetimes f tau s lr) (at_lifetimes g tau s lr).
Proof.
  intros H. unfold at_lifetimes, lifetimes.
  destruct lr; cbn [num_map map num_le].
  - constructor; [apply H; simpl; auto |].
    constructor; [apply H; simpl; auto |].
    constructor; [apply H; simpl; auto |].
    constructor.
  - apply H. simpl. auto.
Qed.

Section Shape.

Variable get_scaled_climate_sensitivity : string -> list R.
Variable get_mm_scaling : string -> list R.

Local Abbreviation compute_atp :=
  (compute_atp get_scaled_climate_sensitivity get_mm_scaling).
Local Abbreviation compute_app :=
  (compute_app get_scaled_climate_sensitivity get_mm_scaling).
Local Abbreviation climate_sensitivity :=
  (climate_sensitivity get_scaled_climate_sensitivity).
Local Abbreviation forcing := (forcing get_mm_scaling).

(** Value of [compute_atp] when at least two coefficients are there. *)
Lemma compute_atp_value_two (p : string) (rad_eff th c1 c2 r : R)
    (rest : list R) (cs es lr : bool) :
  In p constants.SLP ->
  climate_sensitivity p cs = c1 :: c2 :: rest ->
  forcing p rad_eff es = Ok (Scalar r) ->
  exists tau s,
    spec_field p "tau" = Ok tau /\ spec_field p "tau_std" = Ok s /\
    0 <= s /\ 0 < tau - s /\
    (tau + s < 8.4 \/ (8.4 < tau - s /\ tau + s < 409.5)) /\
    compute_atp p rad_eff th cs es lr
    = Ok (at_lifetimes (fun t => iATP_spec r t c1 c2 th) tau s lr,
          at_lifetimes (fun t => ATP_spec r t c1 c2 th) tau s lr).
Proof.
  intros Hp Hc Hr.
  destruct (compute_atp_spec get_scaled_climate_sensitivity get_mm_scaling
              p rad_eff th cs es lr Hp)
    as (tau & s & Ht & Hs & Hs0 & Hlo & Hside & E).
  exists tau, s. repeat (split; [assumption |]).
  rewrite E, Hr, Hc. reflexivity.
Qed.

(** Scaling the efficiency scales the potentials. *)
Lemma compute_atp_scaled (p : string) (a rad_eff th : R) (cs es lr : bool)
    (iatp atp : num) :
  compute_atp p rad_eff th cs es lr = Ok (iatp, atp) ->
  compute_atp p (a * rad_eff) th cs es lr
  = Ok (num_map (Rmult a) iatp, num_map (Rmult a) atp).
Proof.
  intros H.
  destruct (py_in p constants.SLP) eqn:Hin;
    [| unfold slp.compute_atp in H; rewrite Hin in H; discriminate H].
  apply py_in_In in Hin.
  destruct (compute_atp_spec get_scaled_climate_sensitivity get_mm_scaling
              p rad_eff th cs es lr Hin)
    as (tau & s & Ht & Hs & _ & _ & _ & E).
  destruct (compute_atp_spec get_scaled_climate_sensitivity get_mm_scaling
              p (a * rad_eff) th cs es lr Hin)
    as (tau' & s' & Ht' & Hs' & _ & _ & _ & E').
  rewrite Ht in Ht'. injection Ht' as <-. rewrite Hs in Hs'. injection Hs' as <-.
  rewrite E in H. rewrite E'. clear E E'.
  rewrite forcing_spec in H. rewrite forcing_spec.
  assert (Hval : forall r c1 c2,
             Ok (at_lifetimes (fun t => iATP_spec r t c1 c2 th) tau s lr,
                 at_lifetimes (fun t => ATP_spec r t c1 c2 th) tau s lr)
             = Ok (iatp, atp) ->
             Ok (at_lifetimes (fun t => iATP_spec (a * r) t c1 c2 th) tau s lr,
                 at_lifetimes (fun t => ATP_spec (a * r) t c1 c2 th) tau s lr)
             = Ok (num_map (Rmult a) iatp, num_map (Rmult a) atp)).
  { intros r c1 c2 Hv. injection Hv as Hi Hv.
    rewrite <- Hi, <- Hv.
    rewrite (at_lifetimes_scale a (fun t => iATP_spec (a * r) t c1 c2 th)
               (fun t => iATP_spec r t c1 c2 th) tau s lr
               (fun t => iATP_spec_linear a r t c1 c2 th)).
    rewrite (at_lifetimes_scale a (fun t => ATP_spec (a * r) t c1 c2 th)
               (fun t => ATP_spec r t c1 c2 th) tau s lr
               (fun t => ATP_spec_linear a r t c1 c2 th)).
    reflexivity. }
  destruct (String.eqb p "SO2" && negb es).
  - destruct (nth_error (get_mm_scaling "SO2") 1) as [m |]; [| discriminate H].
    destruct (Reqb m 0); [discriminate H |].
    cbn [bind] in H |- *.
    destruct (climate_sensitivity p cs) as [| c1 [| c2 rest]];
      [discriminate H | discriminate H |].
    replace (a * rad_eff / m) with (a * (rad_eff / m)) by (unfold Rdiv; ring).
    apply Hval. exact H.
  - cbn [bind] in H |- *.
    destruct (climate_sensitivity p cs) as [| c1 [| c2 rest]];
      [discriminate H | discriminate H |].
    apply Hval. exact H.
Qed.

(** X6.  [compute_atp] is linear in the radiative efficiency: multiplying
    rad_eff by a factor multiplies every returned potential by it.  In
    particular a zero efficiency gives zero potentials and the opposite
    efficiency the opposite potentials. *)
Theorem compute_atp_linear (p : string) (a rad_eff th : R) (cs es lr : bool)
    (iatp atp : num) :
  compute_atp p rad_eff th cs es lr = Ok (iatp, atp) ->
  compute_atp p (a * rad_eff) th cs es lr
  = Ok (num_map (Rmult a) iatp, num_map (Rmult a) atp).
Proof. apply compute_atp_scaled. Qed.

(** X7.  For SO2, turning erf_scaling off divides every potential by
    element 1 of the multi-model scaling. *)
Theorem erf_scaling_off_divides (rad_eff th m : R) (cs lr : bool)
    (iatp atp : num) :
  nth_error (get_mm_scaling "SO2") 1 = Some m -> m <> 0 ->
  compute_atp "SO2" rad_eff th cs true lr = Ok (iatp, atp) ->
  compute_atp "SO2" rad_eff th cs false lr
  = Ok (num_map (fun x => x / m) iatp, num_map (fun x => x / m) atp).
Proof.
  intros Hm Hz H.
  assert (E : compute_atp "SO2" rad_eff th cs false lr
              = compute_atp "SO2" (/ m * rad_eff) th cs true lr).
  { unfold slp.compute_atp.
    rewrite (forcing_removed get_mm_scaling rad_eff m Hm Hz).
    rewrite (forcing_kept get_mm_scaling "SO2" (/ m * rad_eff) true
               (or_introl eq_refl)).
    replace (rad_eff / m) with (/ m * rad_eff) by (unfold Rdiv; ring).
    reflexivity. }
  rewrite E, (compute_atp_scaled "SO2" (/ m) rad_eff th cs true lr iatp atp H).
  assert (Hmap : forall v, num_map (Rmult (/ m)) v = num_map (fun x => x / m) v).
  { intros [x | xs]; cbn [num_map].
    - f_equal. unfold Rdiv. ring.
    - f_equal. apply map_ext. intros x. unfold Rdiv. ring. }
  rewrite !Hmap. reflexivity.
Qed.

(** X8.  Sign.  With coefficients that are not negative and a horizon
    th >= 0, both potentials have the sign of the efficiency [r] left by
    the forcing step, in every element: not negative for r >= 0, not
    positive for r <= 0. *)
Theorem potentials_sign (p : string) (rad_eff th c1 c2 r : R) (rest : list R)
    (cs es lr : bool) :
  In p constants.SLP ->
  climate_sensitivity p cs = c1 :: c2 :: rest ->
  0 <= c1 -> 0 <= c2 ->
  forcing p rad_eff es = Ok (Scalar r) ->
  0 <= th ->
  exists iatp atp,
    compute_atp p rad_eff th cs es lr = Ok (iatp, atp) /\
    (0 <= r -> num_forall (fun x => 0 <= x) iatp
               /\ num_forall (fun x => 0 <= x) atp) /\
    (r <= 0 -> num_forall (fun x => x <= 0) iatp
               /\ num_forall (fun x => x <= 0) atp).
Proof.
  intros Hp Hc H1 H2 Hr Hth.
  destruct (compute_atp_value_two p rad_eff th c1 c2 r rest cs es lr Hp Hc Hr)
    as (tau & s & _ & _ & Hs0 & Hlo & Hside & E).
  do 2 eexists. split; [exact E |].
  assert (Hlife : forall t, In t [tau - s; tau; tau + s] ->
                            0 < t /\ t <> 8.4 /\ t <> 409.5).
  { intros t [<- | [<- | [<- | []]]]; lra. }
  split; intros Hsign; split; apply at_lifetimes_forall;
    intros t Hin; destruct (Hlife t Hin) as (Ht & Ha & Hb).
  - apply iATP_spec_nonneg; assumption.
  - apply ATP_spec_nonneg; assumption.
  - replace r with (-1 * - r) by ring. rewrite iATP_spec_linear.
    pose proof (iATP_spec_nonneg (- r) t c1 c2 th ltac:(lra) H1 H2 Ht Ha Hb Hth).
    lra.
  - replace r with (-1 * - r) by ring. rewrite ATP_spec_linear.
    pose proof (ATP_spec_nonneg (- r) t c1 c2 th ltac:(lra) H1 H2 Ht Ha Hb Hth).
    lra.
Qed.

(** X9.  Ceiling.  With an efficiency and coefficients that are not
    negative, the integrated potential at a horizon th >= 0 never exceeds
    r * lifetime * (c1 + c2), at each lifetime in use. *)
Theorem iatp_bounded (p : string) (rad_eff th c1 c2 r : R) (rest : list R)
    (cs es lr : bool) :
  In p constants.SLP ->
  climate_sensitivity p cs = c1 :: c2 :: rest ->
  0 <= c1 -> 0 <= c2 ->
  forcing p rad_eff es = Ok (Scalar r) ->
  0 <= r -> 0 <= th ->
  exists tau tau_std iatp atp,
    spec_field p "tau" = Ok tau /\ spec_field p "tau_std" = Ok tau_std /\
    compute_atp p rad_eff th cs es lr = Ok (iatp, atp) /\
    num_le iatp (at_lifetimes (fun t => r * t * (c1 + c2)) tau tau_std lr).
Proof.
  intros Hp Hc H1 H2 Hr Hr0 Hth.
  destruct (compute_atp_value_two p rad_eff th c1 c2 r rest cs es lr Hp Hc Hr)
    as (tau & s & Ht & Hs & Hs0 & Hlo & Hside & E).
  exists tau, s. do 2 eexists.
  split; [exact Ht |]. split; [exact Hs |]. split; [exact E |].
  apply at_lifetimes_le. intros t Hin.
  apply iATP_spec_le; try assumption;
    destruct Hin as [<- | [<- | [<- | []]]]; lra.
Qed.

(** X10.  As functions of the horizon, the pulse potential returned by
    [compute_atp] is the derivative of the integrated potential it returns,
    at each lifetime in use. *)
Theorem pulse_is_rate_of_integrated (p : string) (rad_eff c1 c2 r : R)
    (rest : list R) (cs es : bool) :
  In p constants.SLP ->
  climate_sensitivity p cs = c1 :: c2 :: rest ->
  forcing p rad_eff es = Ok (Scalar r) ->
  exists (tau tau_std : R) (F f : R -> R -> R),
    spec_field p "tau" = Ok tau /\ spec_field p "tau_std" = Ok tau_std /\
    (forall th lr,
       compute_atp p rad_eff th cs es lr
       = Ok (at_lifetimes (fun t => F t th) tau tau_std lr,
             at_lifetimes (fun t => f t th) tau tau_std lr)) /\
    (forall t x, In t [tau - tau_std; tau; tau + tau_std] ->
                 derivable_pt_lim (F t) x (f t x)).
Proof.
  intros Hp Hc Hr.
  destruct (compute_atp_value_two p rad_eff 0 c1 c2 r rest cs es false Hp Hc Hr)
    as (tau & s & Ht & Hs & Hs0 & Hlo & Hside & _).
  exists tau, s, (fun t th => iATP_spec r t c1 c2 th),
    (fun t th => ATP_spec r t c1 c2 th).
  split; [exact Ht |]. split; [exact Hs |]. split.
  - intros th lr.
    destruct (compute_atp_value_two p rad_eff th c1 c2 r rest cs es lr Hp Hc Hr)
      as (tau' & s' & Ht' & Hs' & _ & _ & _ & E).
    rewrite Ht in Ht'. injection Ht' as <-. rewrite Hs in Hs'. injection Hs' as <-.
    exact E.
  - intros t x Hin. apply iATP_spec_derivable.
    destruct Hin as [<- | [<- | [<- | []]]]; lra.
Qed.

End Shape.

(** ** Shape of the precipitation potentials *)

(** X11.  At horizon 0 [compute_app] returns no integrated response and no
    slow pulse: the pulse potential is its fast component alone,
    Cf * (-fp) * rad_eff_a * rr_precip_avg / precip_avg, whatever rad_eff
    is. *)
Theorem compute_app_at_zero_horizon (g gmm : string -> list R) (p : string)
    (rad_eff rad_eff_a rr pa c1 c2 : R) (rest : list R) :
  In p constants.SLP ->
  g p = c1 :: c2 :: rest ->
  pa <> 0 ->
  exists fp,
    spec_field p "fp" = Ok fp /\
    compute_app g gmm p rad_eff rad_eff_a 0 rr pa
    = Ok (Scalar 0, Scalar 0, Scalar 0,
          Scalar (Cf * - fp * rad_eff_a * (rr / pa)),
          Scalar 0,
          Scalar (Cf * - fp * rad_eff_a * (rr / pa))).
Proof.
  intros Hp Hg Hpa.
  destruct (compute_app_spec g gmm p rad_eff rad_eff_a 0 rr pa Hp)
    as (tau & fp & k & Ht & Hfp & Hk & Htau & _ & _ & E).
  exists fp. split; [exact Hfp |].
  rewrite E, Hg, (Reqb_neq _ _ Hpa).
  rewrite iATP_spec_zero, ATP_spec_zero.
  replace (- 0 / tau) with 0 by (unfold Rdiv; ring).
  rewrite exp_0.
  apply f_equal.
  repeat (apply (f_equal2 (@pair _ _)));
    apply (f_equal Scalar); unfold Rdiv; ring.
Qed.

(** X12.  As functions of the horizon, each pulse value returned by
    [compute_app] (total, slow, fast) is the derivative of the integrated
    value of the same kind. *)
Theorem app_pulse_is_rate_of_integrated (g gmm : string -> list R) (p : string)
    (rad_eff rad_eff_a rr pa c1 c2 : R) (rest : list R) :
  In p constants.SLP ->
  g p = c1 :: c2 :: rest ->
  pa <> 0 ->
  exists I SI FI P SP FP : R -> R,
    (forall th,
       compute_app g gmm p rad_eff rad_eff_a th rr pa
       = Ok (Scalar (I th), Scalar (SI th), Scalar (FI th),
             Scalar (P th), Scalar (SP th), Scalar (FP th))) /\
    (forall x, derivable_pt_lim I x (P x)
               /\ derivable_pt_lim SI x (SP x)
               /\ derivable_pt_lim FI x (FP x)).
Proof.
  intros Hp Hg Hpa.
  destruct (compute_app_spec g gmm p rad_eff rad_eff_a 0 rr pa Hp)
    as (tau & fp & k & Ht & Hfp & Hk & Htau & _ & _ & _).
  exists (fun th => Cf * (k * iATP_spec rad_eff tau c1 c2 th
                          - fp * rad_eff_a * tau * (1 - exp (- th / tau)))
                    * (rr / pa)),
    (fun th => Cf * k * iATP_spec rad_eff tau c1 c2 th * (rr / pa)),
    (fun th => Cf * - fp * rad_eff_a * tau * (1 - exp (- th / tau)) * (rr / pa)),
    (fun th => Cf * (k * ATP_spec rad_eff tau c1 c2 th
                     - fp * rad_eff_a * exp (- th / tau)) * (rr / pa)),
    (fun th => Cf * k * ATP_spec rad_eff tau c1 c2 th * (rr / pa)),
    (fun th => Cf * - fp * rad_eff_a * exp (- th / tau) * (rr / pa)).
  split.
  - intros th.
    destruct (compute_app_spec g gmm p rad_eff rad_eff_a th rr pa Hp)
      as (tau' & fp' & k' & Ht' & Hfp' & Hk' & _ & _ & _ & E).
    rewrite Ht in Ht'. injection Ht' as <-.
    rewrite Hfp in Hfp'. injection Hfp' as <-.
    rewrite Hk in Hk'. injection Hk' as <-.
    rewrite E, Hg, (Reqb_neq _ _ Hpa). reflexivity.
  - intros x.
    assert (Htau0 : tau <> 0) by lra.
    pose proof (iATP_spec_derivable rad_eff tau c1 c2 x Htau0) as Di.
    pose proof (decay_derivable tau x Htau0) as Dd.
    assert (Dslow : derivable_pt_lim
                      (fun th => Cf * k * iATP_spec rad_eff tau c1 c2 th * (rr / pa)) x
                      (Cf * k * ATP_spec rad_eff tau c1 c2 x * (rr / pa))).
    { apply (derivable_pt_lim_ext
               (mult_real_fct (Cf * k * (rr / pa))
                              (fun th => iATP_spec rad_eff tau c1 c2 th))).
      - intros z. unfold mult_real_fct. ring.
      - replace (Cf * k * ATP_spec rad_eff tau c1 c2 x * (rr / pa))
          with (Cf * k * (rr / pa) * ATP_spec rad_eff tau c1 c2 x) by ring.
        apply derivable_pt_lim_scal. exact Di. }
    assert (Dfast : derivable_pt_lim
                      (fun th => Cf * - fp * rad_eff_a * tau * (1 - exp (- th / tau))
                                 * (rr / pa)) x
                      (Cf * - fp * rad_eff_a * exp (- x / tau) * (rr / pa))).
    { apply (derivable_pt_lim_ext
               (mult_real_fct (Cf * - fp * rad_eff_a * (rr / pa))
                              (fun th => tau * (1 - exp (- th / tau))))).
      - intros z. unfold mult_real_fct. ring.
      - replace (Cf * - fp * rad_eff_a * exp (- x / tau) * (rr / pa))
          with (Cf * - fp * rad_eff_a * (rr / pa) * exp (- x / tau)) by ring.
        apply derivable_pt_lim_scal. exact Dd. }
    split; [| split; assumption].
    apply (derivable_pt_lim_ext
             (plus_fct
                (fun th => Cf * k * iATP_spec rad_eff tau c1 c2 th * (rr / pa))
                (fun th => Cf * - fp * rad_eff_a * tau * (1 - exp (- th / tau))
                           * (rr / pa)))).
    + intros z. unfold plus_fct. ring.
    + replace (Cf * (k * ATP_spec rad_eff tau c1 c2 x
                     - fp * rad_eff_a * exp (- x / tau)) * (rr / pa))
        with (Cf * k * ATP_spec rad_eff tau c1 c2 x * (rr / pa)
              + Cf * - fp * rad_eff_a * exp (- x / tau) * (rr / pa)) by ring.
      apply derivable_pt_lim_plus; assumption.
Qed.

(** X13.  [compute_app] sees the two precipitation averages through their
    ratio only: a common nonzero factor on both changes nothing, failures
    included. *)
Theorem compute_app_ratio_only (g gmm : string -> list R) (p : string)
    (a rad_eff rad_eff_a th rr pa : R) :
  a <> 0 ->
  compute_app g gmm p rad_eff rad_eff_a th (a * rr) (a * pa)
  = compute_app g gmm p rad_eff rad_eff_a th rr pa.
Proof.
  intros Ha.
  destruct (py_in p constants.SLP) eqn:Hin;
    [| unfold compute_app; rewrite Hin; reflexivity].
  apply py_in_In in Hin.
  destruct (compute_app_spec g gmm p rad_eff rad_eff_a th rr pa Hin)
    as (tau & fp & k & Ht & Hfp & Hk & _ & _ & _ & E).
  destruct (compute_app_spec g gmm p rad_eff rad_eff_a th (a * rr) (a * pa) Hin)
    as (tau' & fp' & k' & Ht' & Hfp' & Hk' & _ & _ & _ & E').
  rewrite Ht in Ht'. injection Ht' as <-.
  rewrite Hfp in Hfp'. injection Hfp' as <-.
  rewrite Hk in Hk'. injection Hk' as <-.
  rewrite E, E'. clear E E'.
  destruct (g p) as [| c1 [| c2 rest]]; [reflexivity | reflexivity |].
  destruct (Req_dec pa 0) as [-> | Hpa].
  - rewrite Rmult_0_r, Reqb_refl. reflexivity.
  - assert (Hapa : a * pa <> 0) by (apply Rmult_integral_contrapositive_currified; assumption).
    rewrite (Reqb_neq _ _ Hpa), (Reqb_neq _ _ Hapa).
    replace (a * rr / (a * pa)) with (rr / pa) by (field; split; assumption).
    reflexivity.
Qed.

(** X14.  [compute_app] never consults the multi-model scaling, not even
    for SO2: it calls [compute_atp] with erf_scaling on, and with
    erf_scaling on [compute_atp] does not consult it either. *)
Theorem multi_model_scaling_unused (g gmm gmm' : string -> list R) (p : string)
    (rad_eff rad_eff_a th rr pa : R) (cs lr : bool) :
  compute_app g gmm p rad_eff rad_eff_a th rr pa
  = compute_app g gmm' p rad_eff rad_eff_a th rr pa
  /\ compute_atp g gmm p rad_eff th cs true lr
     = compute_atp g gmm' p rad_eff th cs true lr.
Proof.
  assert (Hatp : forall cs' lr',
             compute_atp g gmm p rad_eff th cs' true lr'
             = compute_atp g gmm' p rad_eff th cs' true lr').
  { intros cs' lr'. unfold compute_atp.
    rewrite (forcing_kept gmm p rad_eff true (or_introl eq_refl)).
    rewrite (forcing_kept gmm' p rad_eff true (or_introl eq_refl)).
    reflexivity. }
  split; [| apply Hatp].
  unfold compute_app. rewrite (Hatp true false). reflexivity.
Qed.

(** X15.  Attribution.  In the values returned by [compute_app] the slow
    components do not depend on the atmospheric efficiency rad_eff_a, and
    the fast components depend neither on rad_eff nor on the climate
    sensitivity. *)
Theorem slow_fast_attribution (g g' gmm gmm' : string -> list R) (p : string)
    (rad_eff rad_eff' rad_eff_a rad_eff_a' th rr pa : R)
    (i si fi a sa fa i' si' fi' a' sa' fa' : num) :
  compute_app g gmm p rad_eff rad_eff_a th rr pa = Ok (i, si, fi, a, sa, fa) ->
  compute_app g' gmm' p rad_eff' rad_eff_a' th rr pa
  = Ok (i', si', fi', a', sa', fa') ->
  (rad_eff_a = rad_eff_a' -> fi = fi' /\ fa = fa') /\
  (rad_eff = rad_eff' -> firstn 2 (g p) = firstn 2 (g' p) ->
   si = si' /\ sa = sa').
Proof.
  intros H H'.
  destruct (py_in p constants.SLP) eqn:Hin;
    [| unfold compute_app in H; rewrite Hin in H; discriminate H].
  apply py_in_In in Hin.
  destruct (compute_app_spec g gmm p rad_eff rad_eff_a th rr pa Hin)
    as (tau & fp & k & Ht & Hfp & Hk & _ & _ & _ & E).
  destruct (compute_app_spec g' gmm' p rad_eff' rad_eff_a' th rr pa Hin)
    as (tau' & fp' & k' & Ht' & Hfp' & Hk' & _ & _ & _ & E').
  rewrite Ht in Ht'. injection Ht' as <-.
  rewrite Hfp in Hfp'. injection Hfp' as <-.
  rewrite Hk in Hk'. injection Hk' as <-.
  rewrite E in H. rewrite E' in H'. clear E E'.
  destruct (g p) as [| c1 [| c2 rest]]; [discriminate H | discriminate H |].
  destruct (g' p) as [| d1 [| d2 rest']]; [discriminate H' | discriminate H' |].
  destruct (Reqb pa 0); [discriminate H |].
  injection H as <- <- <- <- <- <-.
  injection H' as <- <- <- <- <- <-.
  split.
  - intros <-. split; reflexivity.
  - intros <- Hc. cbn [firstn] in Hc. injection Hc as <- <-.
    split; reflexivity.
Qed.

(** ** Instances of the further properties *)

Lemma compute_atp_failures_witness :
  compute_atp (fun _ => []) (fun _ => [1; 0]) "SO2" 1 20 true false false
  = Raise ZeroDivisionError
  /\ compute_atp (fun _ => []) (fun _ => [1; 2]) "SO2" 1 20 true false false
     = Raise IndexError.
Proof.
  assert (Hp : In "SO2"%string constants.SLP) by (simpl; left; reflexivity).
  assert (H2 : 2 <> 0) by lra.
  split.
  - apply (proj2 (compute_atp_failures (fun _ => []) (fun _ => [1; 0])
                    "SO2" 1 20 true false false ZeroDivisionError)).
    right; right; left.
    split; [exact Hp |]. repeat split; reflexivity.
  - apply (proj2 (compute_atp_failures (fun _ => []) (fun _ => [1; 2])
                    "SO2" 1 20 true false false IndexError)).
    right; right; right.
    split; [exact Hp |]. split.
    + intros _ _. exists 2. split; [reflexivity | exact H2].
    + split; [simpl; lia | reflexivity].
Defined.

Lemma compute_app_failures_witness :
  compute_app unit_scaled_climate_sensitivity unit_mm_scaling "BC" 1 1 20 1 0
  = Raise ZeroDivisionError /\
  ((~ In "BC"%string constants.SLP
    /\ ZeroDivisionError = AssertionError ("BC" ++ " is not an accepted pollutant"))
   \/ (In "BC"%string constants.SLP
       /\ (List.length (unit_scaled_climate_sensitivity "BC") < 2)%nat
       /\ ZeroDivisionError = IndexError)
   \/ (In "BC"%string constants.SLP
       /\ (2 <= List.length (unit_scaled_climate_sensitivity "BC"))%nat
       /\ 0 = 0 /\ ZeroDivisionError = ZeroDivisionError)).
Proof.
  assert (H : compute_app unit_scaled_climate_sensitivity unit_mm_scaling
                "BC" 1 1 20 1 0 = Raise ZeroDivisionError).
  { apply (compute_app_zero_precip unit_scaled_climate_sensitivity unit_mm_scaling
             "BC" 1 1 20 1 constants.C1 constants.C2);
      [exact BC_accepted | reflexivity]. }
  split; [exact H |].
  exact (compute_app_failures unit_scaled_climate_sensitivity unit_mm_scaling
           "BC" 1 1 20 1 0 ZeroDivisionError H).
Defined.

Lemma first_two_coefficients_only_witness :
  compute_atp (fun _ => [constants.C1; constants.C2; 7; 9]) unit_mm_scaling
    "CH4" 1 20 true true true
  = compute_atp unit_scaled_climate_sensitivity unit_mm_scaling "CH4" 1 20 true true true
  /\ compute_app (fun _ => [constants.C1; constants.C2; 7; 9]) unit_mm_scaling
       "CH4" 1 2 20 3 4
     = compute_app unit_scaled_climate_sensitivity unit_mm_scaling "CH4" 1 2 20 3 4.
Proof.
  apply (first_two_coefficients_only
           (fun _ => [constants.C1; constants.C2; 7; 9])
           unit_scaled_climate_sensitivity unit_mm_scaling
           "CH4" 1 2 20 3 4 constants.C1 constants.C2 [7; 9] [] true true true);
    reflexivity.
Defined.

Lemma compute_atp_linear_witness :
  exists iatp atp,
    compute_atp unit_scaled_climate_sensitivity unit_mm_scaling "BC" 1 20 true true true
    = Ok (iatp, atp) /\
    compute_atp unit_scaled_climate_sensitivity unit_mm_scaling "BC" (-3 * 1) 20 true true true
    = Ok (num_map (Rmult (-3)) iatp, num_map (Rmult (-3)) atp).
Proof.
  destruct (compute_atp_value unit_scaled_climate_sensitivity unit_mm_scaling
              "BC" 1 20 constants.C1 constants.C2 1 true true true
              BC_accepted eq_refl eq_refl)
    as (tau & s & _ & _ & _ & _ & _ & E).
  do 2 eexists. split; [exact E |].
  exact (compute_atp_linear unit_scaled_climate_sensitivity unit_mm_scaling
           "BC" (-3) 1 20 true true true _ _ E).
Defined.

Lemma erf_scaling_off_divides_witness :
  exists iatp atp,
    nth_error ((fun _ : string => [1; 2]) "SO2"%string) 1 = Some 2 /\ 2 <> 0 /\
    compute_atp unit_scaled_climate_sensitivity (fun _ => [1; 2]) "SO2" (-1) 100 true true false
    = Ok (iatp, atp) /\
    compute_atp unit_scaled_climate_sensitivity (fun _ => [1; 2]) "SO2" (-1) 100 true false false
    = Ok (num_map (fun x => x / 2) iatp, num_map (fun x => x / 2) atp).
Proof.
  assert (Hp : In "SO2"%string constants.SLP) by (simpl; left; reflexivity).
  assert (Hz : 2 <> 0) by lra.
  destruct (compute_atp_value unit_scaled_climate_sensitivity (fun _ => [1; 2])
              "SO2" (-1) 100 constants.C1 constants.C2 (-1) true true false
              Hp eq_refl eq_refl)
    as (tau & s & _ & _ & _ & _ & _ & E).
  do 2 eexists. split; [reflexivity |]. split; [exact Hz |]. split; [exact E |].
  exact (erf_scaling_off_divides unit_scaled_climate_sensitivity (fun _ => [1; 2])
           (-1) 100 2 true false _ _ eq_refl Hz E).
Defined.

Lemma potentials_sign_witness :
  0 <= constants.C1 /\ 0 <= constants.C2 /\ 0 <= 20 /\
  exists iatp atp,
    compute_atp unit_scaled_climate_sensitivity unit_mm_scaling "SO2" (-1) 20 true true true
    = Ok (iatp, atp) /\
    (0 <= -1 -> num_forall (fun x => 0 <= x) iatp
                /\ num_forall (fun x => 0 <= x) atp) /\
    (-1 <= 0 -> num_forall (fun x => x <= 0) iatp
                /\ num_forall (fun x => x <= 0) atp).
Proof.
  assert (Hp : In "SO2"%string constants.SLP) by (simpl; left; reflexivity).
  assert (H1 : 0 <= constants.C1) by (unfold constants.C1; lra).
  assert (H2 : 0 <= constants.C2) by (unfold constants.C2; lra).
  assert (H3 : 0 <= 20) by lra.
  split; [exact H1 |]. split; [exact H2 |]. split; [exact H3 |].
  exact (potentials_sign unit_scaled_climate_sensitivity unit_mm_scaling
           "SO2" (-1) 20 constants.C1 constants.C2 (-1) [] true true true
           Hp eq_refl H1 H2 eq_refl H3).
Defined.

Lemma iatp_bounded_witness :
  0 <= 1 /\ 0 <= 20 /\
  exists tau tau_std iatp atp,
    spec_field "BC" "tau" = Ok tau /\ spec_field "BC" "tau_std" = Ok tau_std /\
    compute_atp unit_scaled_climate_sensitivity unit_mm_scaling "BC" 1 20 true true true
    = Ok (iatp, atp) /\
    num_le iatp
      (at_lifetimes (fun t => 1 * t * (constants.C1 + constants.C2)) tau tau_std true).
Proof.
  assert (H1 : 0 <= constants.C1) by (unfold constants.C1; lra).
  assert (H2 : 0 <= constants.C2) by (unfold constants.C2; lra).
  assert (H3 : 0 <= 1) by lra.
  assert (H4 : 0 <= 20) by lra.
  split; [exact H3 |]. split; [exact H4 |].
  exact (iatp_bounded unit_scaled_climate_sensitivity unit_mm_scaling
           "BC" 1 20 constants.C1 constants.C2 1 [] true true true
           BC_accepted eq_refl H1 H2 eq_refl H3 H4).
Defined.

Lemma pulse_is_rate_of_integrated_witness :
  In "BC"%string constants.SLP /\
  exists (tau tau_std : R) (F f : R -> R -> R),
    spec_field "BC" "tau" = Ok tau /\ spec_field "BC" "tau_std" = Ok tau_std /\
    (forall th lr,
       compute_atp unit_scaled_climate_sensitivity unit_mm_scaling "BC" 1 th true true lr
       = Ok (at_lifetimes (fun t => F t th) tau tau_std lr,
             at_lifetimes (fun t => f t th) tau tau_std lr)) /\
    (forall t x, In t [tau - tau_std; tau; tau + tau_std] ->
                 derivable_pt_lim (F t) x (f t x)).
Proof.
  split; [exact BC_accepted |].
  exact (pulse_is_rate_of_integrated unit_scaled_climate_sensitivity unit_mm_scaling
           "BC" 1 constants.C1 constants.C2 1 [] true true
           BC_accepted eq_refl eq_refl).
Defined.

Lemma compute_app_at_zero_horizon_witness :
  1 <> 0 /\
  exists fp,
    spec_field "BC" "fp" = Ok fp /\
    compute_app unit_scaled_climate_sensitivity unit_mm_scaling "BC" 5 2 0 3 1
    = Ok (Scalar 0, Scalar 0, Scalar 0,
          Scalar (Cf * - fp * 2 * (3 / 1)),
          Scalar 0,
          Scalar (Cf * - fp * 2 * (3 / 1))).
Proof.
  assert (H : 1 <> 0) by lra.
  split; [exact H |].
  exact (compute_app_at_zero_horizon unit_scaled_climate_sensitivity unit_mm_scaling
           "BC" 5 2 3 1 constants.C1 constants.C2 [] BC_accepted eq_refl H).
Defined.

Lemma app_pulse_is_rate_of_integrated_witness :
  1 <> 0 /\
  exists I SI FI P SP FP : R -> R,
    (forall th,
       compute_app unit_scaled_climate_sensitivity unit_mm_scaling "BC" 5 2 th 3 1
       = Ok (Scalar (I th), Scalar (SI th), Scalar (FI th),
             Scalar (P th), Scalar (SP th), Scalar (FP th))) /\
    (forall x, derivable_pt_lim I x (P x)
               /\ derivable_pt_lim SI x (SP x)
               /\ derivable_pt_lim FI x (FP x)).
Proof.
  assert (H : 1 <> 0) by lra.
  split; [exact H |].
  exact (app_pulse_is_rate_of_integrated unit_scaled_climate_sensitivity unit_mm_scaling
           "BC" 5 2 3 1 constants.C1 constants.C2 [] BC_accepted eq_refl H).
Defined.

Lemma compute_app_ratio_only_witness :
  2 <> 0 /\
  compute_app unit_scaled_climate_sensitivity unit_mm_scaling "BC" 5 2 20 (2 * 3) (2 * 4)
  = compute_app unit_scaled_climate_sensitivity unit_mm_scaling "BC" 5 2 20 3 4.
Proof.
  assert (H : 2 <> 0) by lra.
  split; [exact H |].
  exact (compute_app_ratio_only unit_scaled_climate_sensitivity unit_mm_scaling
           "BC" 2 5 2 20 3 4 H).
Defined.

Lemma slow_fast_attribution_witness :
  exists i si fi a sa fa i' si' fi' a' sa' fa',
    compute_app unit_scaled_climate_sensitivity unit_mm_scaling "BC" 5 2 20 3 1
    = Ok (i, si, fi, a, sa, fa) /\
    compute_app unit_scaled_climate_sensitivity unit_mm_scaling "BC" 5 7 20 3 1
    = Ok (i', si', fi', a', sa', fa') /\
    (2 = 7 -> fi = fi' /\ fa = fa') /\
    (5 = 5 ->
     firstn 2 (unit_scaled_climate_sensitivity "BC")
     = firstn 2 (unit_scaled_climate_sensitivity "BC") ->
     si = si' /\ sa = sa').
Proof.
  assert (H : 1 <> 0) by lra.
  destruct (compute_app_value unit_scaled_climate_sensitivity unit_mm_scaling
              "BC" 5 2 20 3 1 constants.C1 constants.C2 BC_accepted eq_refl H)
    as (tau & fp & k & _ & _ & _ & _ & E).
  destruct (compute_app_value unit_scaled_climate_sensitivity unit_mm_scaling
              "BC" 5 7 20 3 1 constants.C1 constants.C2 BC_accepted eq_refl H)
    as (tau' & fp' & k' & _ & _ & _ & _ & E').
  do 12 eexists. split; [exact E |]. split; [exact E' |].
  exact (slow_fast_attribution unit_scaled_climate_sensitivity
           unit_scaled_climate_sensitivity unit_mm_scaling unit_mm_scaling
           "BC" 5 5 2 7 20 3 1 _ _ _ _ _ _ _ _ _ _ _ _ E E').
Defined.
